(** * The calculator engine of the 3D isometric calculator

    The engine is the [useCalculator] hook of the application component
    (six pieces of React state and eleven command closures) and, in the
    earlier revision kept in [src/App.tsx], the [Calculator] component with
    four pieces of state and a guarded equals handler.

    Every command closure reads the state captured by the current render and
    queues setter calls; React applies the queued setters before the next
    event is dispatched.  A command is therefore a function from the state of
    the render in which it was created to the state of the next render, and a
    session is the left-to-right composition of such functions.

    The numbers of the engine are ECMAScript Numbers.  They are modelled as
    IEEE-754 binary64 values with the specification floats of the standard
    library ([SpecFloat], precision 53, [emax] 1024); [parseFloat] and the
    Number-to-String conversion follow ECMA-262 (StringNumericValue with
    round-to-nearest-even, and Number::toString with the shortest digit
    string that reads back as the same value). *)

From Stdlib Require Import ZArith String Ascii List Bool Lia.
From Stdlib Require Import SpecFloat.
Import ListNotations.

Local Open Scope Z_scope.

(** ** ECMAScript Numbers *)

Module JS.

Definition number : Type := spec_float.

Definition prec : Z := 53.
Definition emax : Z := 1024.

Definition NaN : number := S754_nan.
Definition Infinity : number := S754_infinity false.

(** The binary operators [+ - * /] and unary minus on Numbers. *)
Definition add : number -> number -> number := SFadd prec emax.
Definition sub : number -> number -> number := SFsub prec emax.
Definition mul : number -> number -> number := SFmul prec emax.
Definition div : number -> number -> number := SFdiv prec emax.
Definition neg : number -> number := SFopp.

(** An integer literal of the source text, such as [0] or [100]. *)
Definition of_Z (n : Z) : number := binary_normalize prec emax n 0 false.

(** ToBoolean on a Number: [NaN], [+0] and [-0] are falsy. *)
Definition truthy (x : number) : bool :=
  match x with
  | S754_zero _ | S754_nan => false
  | _ => true
  end.

(** [x || 0] on a Number [x]. *)
Definition or_zero (x : number) : number :=
  if truthy x then x else of_Z 0.

(** The [==] / [===] comparison of two Numbers ([NaN] equals nothing, the
    two zeros are equal). *)
Definition num_eq (x y : number) : bool := SFeqb x y.

(** Structural identity of two Numbers (Object.is). *)
Definition same_value (x y : number) : bool :=
  match x, y with
  | S754_zero a, S754_zero b => Bool.eqb a b
  | S754_infinity a, S754_infinity b => Bool.eqb a b
  | S754_nan, S754_nan => true
  | S754_finite a m e, S754_finite b m' e' =>
      Bool.eqb a b && Pos.eqb m m' && Z.eqb e e'
  | _, _ => false
  end.

(** *** Decimal to binary: the rounding of a mathematical value

    [round_frac sg num den] is the Number nearest to [num / den] (ties to
    even), with sign [sg]; [num >= 0] and [den > 0]. *)
Definition round_frac (sg : bool) (num den : Z) : number :=
  match num with
  | Z0 => S754_zero sg
  | _ =>
      let '(q, e, l) := SFdiv_core_binary prec emax num 0 den 0 in
      binary_round_aux prec emax sg q e l
  end.

(** The Number for the decimal [s * 10^j]. *)
Definition round_dec (sg : bool) (s j : Z) : number :=
  if 0 <=? j then round_frac sg (s * 10 ^ j) 1
  else round_frac sg s (10 ^ (- j)).

(** *** parseFloat *)

(** The value of a DecimalDigit code point (["0"] is 48, ["9"] is 57). *)
Definition digit_of (c : ascii) : option Z :=
  let n := Z.of_nat (nat_of_ascii c) in
  if (48 <=? n) && (n <=? 57) then Some (n - 48) else None.

(** The longest run of decimal digits at the head of [l]: the value read
    (continuing from [acc]), the number of digits (continuing from [cnt])
    and the text left. *)
Fixpoint scan_digits (l : list ascii) (acc cnt : Z) : Z * Z * list ascii :=
  match l with
  | c :: l' =>
      match digit_of c with
      | Some d => scan_digits l' (acc * 10 + d) (cnt + 1)
      | None => (acc, cnt, l)
      end
  | [] => (acc, cnt, l)
  end.

Fixpoint starts_with (p l : list ascii) : bool :=
  match p, l with
  | [], _ => true
  | a :: p', b :: l' => Ascii.eqb a b && starts_with p' l'
  | _ :: _, [] => false
  end.

(** Leading StrWhiteSpaceChar code points are dropped: WhiteSpace and
    LineTerminator, here in their UTF-8 encoding (TAB, LF, VT, FF, CR, SP,
    U+00A0, U+1680, U+2000 to U+200A, U+2028, U+2029, U+202F, U+205F, U+3000
    and U+FEFF). *)
Fixpoint skip_ws (l : list ascii) : list ascii :=
  match l with
  | c :: l1 =>
      let n := nat_of_ascii c in
      if (Nat.eqb n 9 || Nat.eqb n 10 || Nat.eqb n 11 || Nat.eqb n 12
          || Nat.eqb n 13 || Nat.eqb n 32)%bool
      then skip_ws l1
      else
        match l1 with
        | c1 :: l2 =>
            let n1 := nat_of_ascii c1 in
            if (Nat.eqb n 194 && Nat.eqb n1 160)%bool then skip_ws l2
            else
              match l2 with
              | c2 :: l3 =>
                  let n2 := nat_of_ascii c2 in
                  if ((Nat.eqb n 225 && Nat.eqb n1 154 && Nat.eqb n2 128)
                      || (Nat.eqb n 226 && Nat.eqb n1 128
                          && (Nat.leb 128 n2 && Nat.leb n2 138
                              || Nat.eqb n2 168 || Nat.eqb n2 169
                              || Nat.eqb n2 175))
                      || (Nat.eqb n 226 && Nat.eqb n1 129 && Nat.eqb n2 159)
                      || (Nat.eqb n 227 && Nat.eqb n1 128 && Nat.eqb n2 128)
                      || (Nat.eqb n 239 && Nat.eqb n1 187 && Nat.eqb n2 191))%bool
                  then skip_ws l3
                  else l
              | [] => l
              end
        | [] => l
        end
  | [] => []
  end.

(** ExponentPart: [e] or [E], an optional sign and at least one digit; a
    malformed exponent is not part of the longest literal prefix. *)
Definition parse_exponent (l : list ascii) : Z :=
  match l with
  | c :: r =>
      if (Ascii.eqb c "e" || Ascii.eqb c "E")%bool then
        let '(sg, r') :=
          match r with
          | "+"%char :: r' => (false, r')
          | "-"%char :: r' => (true, r')
          | _ => (false, r)
          end in
        let '(v, n, _) := scan_digits r' 0 0 in
        if n =? 0 then 0 else if sg then - v else v
      else 0
  | [] => 0
  end.

(** StrUnsignedDecimalLiteral, with the sign already read. *)
Definition parse_unsigned (sg : bool) (l : list ascii) : number :=
  if starts_with (list_ascii_of_string "Infinity") l then S754_infinity sg
  else
    let '(ip, ni, r1) := scan_digits l 0 0 in
    let '(m, nf, r2) :=
      match r1 with
      | "."%char :: r => scan_digits r ip 0
      | _ => (ip, 0, r1)
      end in
    if ni + nf =? 0 then NaN
    else round_dec sg m (parse_exponent r2 - nf).

Definition parse_chars (l : list ascii) : number :=
  match skip_ws l with
  | "+"%char :: r => parse_unsigned false r
  | "-"%char :: r => parse_unsigned true r
  | r => parse_unsigned false r
  end.

Definition parseFloat (s : string) : number :=
  parse_chars (list_ascii_of_string s).

(** *** Number::toString (radix 10) *)

Definition digit_char (d : Z) : ascii := ascii_of_nat (48 + Z.to_nat d).

(** The decimal digits of a non-negative integer, most significant first. *)
Fixpoint digits_fuel (fuel : nat) (n : Z) (acc : list Z) : list Z :=
  match fuel with
  | O => n :: acc
  | S f =>
      if n <? 10 then n :: acc
      else digits_fuel f (n / 10) (n mod 10 :: acc)
  end.

Definition digits (n : Z) : list Z :=
  digits_fuel (Z.to_nat (Z.log2 n)) n [].

Definition digit_chars (n : Z) : list ascii := map digit_char (digits n).

Definition zeros (n : Z) : list ascii := repeat "0"%char (Z.to_nat n).

(** The text for the digit string [ds] (of length [k]) and the decimal
    point position [n], that is for the value [0.ds * 10^n]. *)
Definition render (ds : list ascii) (n : Z) : list ascii :=
  let k := Z.of_nat (length ds) in
  if (k <=? n) && (n <=? 21) then ds ++ zeros (n - k)
  else if (0 <? n) && (n <=? 21) then
    firstn (Z.to_nat n) ds ++ "."%char :: skipn (Z.to_nat n) ds
  else if (-6 <? n) && (n <=? 0) then
    "0"%char :: "."%char :: zeros (- n) ++ ds
  else
    let e := n - 1 in
    let ex :=
      (if e <? 0 then "-"%char else "+"%char) :: digit_chars (Z.abs e) in
    match ds with
    | [d] => d :: "e"%char :: ex
    | d :: rest => d :: "."%char :: rest ++ "e"%char :: ex
    | [] => "e"%char :: ex
    end.

(** A candidate [s * 10^j] without trailing zero digits in [s]. *)
Fixpoint strip_zeros (fuel : nat) (s j : Z) : Z * Z :=
  match fuel with
  | O => (s, j)
  | S f =>
      if (s mod 10 =? 0) && negb (s =? 0) then strip_zeros f (s / 10) (j + 1)
      else (s, j)
  end.

Definition normalize (s j : Z) : Z * Z :=
  strip_zeros (Z.to_nat (Z.log2 s)) s j.

(** The positive value [m * 2^e] multiplied by [10^p], as a fraction. *)
Definition scaled (m : positive) (e p : Z) : Z * Z :=
  let '(X, D) := if 0 <=? e then (Zpos m * 2 ^ e, 1) else (Zpos m, 2 ^ (- e)) in
  if 0 <=? p then (X * 10 ^ p, D) else (X, D * 10 ^ (- p)).

(** The least [j >= i] with [X * 10^j >= D] (searched within [fuel]). *)
Fixpoint first_digit_pos (fuel : nat) (X D i : Z) : Z :=
  match fuel with
  | O => i
  | S f => if D <=? X * 10 ^ i then i else first_digit_pos f X D (i + 1)
  end.

(** The integer [n] with [10^(n-1) <= m * 2^e < 10^n]. *)
Definition decimal_exponent (m : positive) (e : Z) : Z :=
  let '(X, D) := scaled m e 0 in
  if D <=? X then Z.of_nat (length (digits (X / D)))
  else 1 - first_digit_pos (Z.to_nat (Z.log2 D) + 1) X D 1.

(** A candidate is kept when it reads back as the value being printed. *)
Definition reads_back (m : positive) (e : Z) (c : Z * Z) : bool :=
  same_value (round_dec false (fst c) (snd c)) (S754_finite false m e).

(** The [k]-digit candidates around [m * 2^e]: the one below (or equal) and
    the one above, and the choice ECMA-262 makes between those that read
    back: the closer one, the even one on a tie. *)
Definition candidate (m : positive) (e n0 k : Z) : option (Z * Z) :=
  let '(P, Q) := scaled m e (k - n0) in
  let lo := normalize (P / Q) (n0 - k) in
  let hi := normalize (P / Q + 1) (n0 - k) in
  let r := P mod Q in
  match reads_back m e lo, reads_back m e hi with
  | true, true =>
      match 2 * r ?= Q with
      | Lt => Some lo
      | Gt => Some hi
      | Eq => if Z.even (P / Q) then Some lo else Some hi
      end
  | true, false => Some lo
  | false, true => Some hi
  | false, false => None
  end.

(** The candidate with the fewest digits, trying [k], [k+1], ... *)
Fixpoint shortest (fuel : nat) (m : positive) (e n0 k : Z) : option (Z * Z) :=
  match fuel with
  | O => None
  | S f =>
      match candidate m e n0 k with
      | Some c => Some c
      | None => shortest f m e n0 (k + 1)
      end
  end.

(** The exact decimal expansion of [m * 2^e]. *)
Definition exact_decimal (m : positive) (e : Z) : Z * Z :=
  if 0 <=? e then normalize (Zpos m * 2 ^ e) 0
  else normalize (Zpos m * 5 ^ (- e)) e.

(** Seventeen significant digits always suffice for a binary64 value; the
    exact expansion closes the definition. *)
Definition shortest_decimal (m : positive) (e : Z) : Z * Z :=
  match shortest 17 m e (decimal_exponent m e) 1 with
  | Some c => c
  | None => exact_decimal m e
  end.

Definition render_decimal (c : Z * Z) : list ascii :=
  let ds := digit_chars (fst c) in
  render ds (snd c + Z.of_nat (length ds)).

Definition to_chars (x : number) : list ascii :=
  match x with
  | S754_nan => list_ascii_of_string "NaN"
  | S754_zero _ => list_ascii_of_string "0"
  | S754_infinity false => list_ascii_of_string "Infinity"
  | S754_infinity true => list_ascii_of_string "-Infinity"
  | S754_finite false m e => render_decimal (shortest_decimal m e)
  | S754_finite true m e => "-"%char :: render_decimal (shortest_decimal m e)
  end.

(** The number of ['.'] code points of a text. *)
Fixpoint dots (l : list ascii) : nat :=
  match l with
  | [] => O
  | c :: l' => if Ascii.eqb c "." then S (dots l') else dots l'
  end.

(** [String(x)] and the template-literal conversion of a Number [x]. *)
Definition toString (x : number) : string :=
  string_of_list_ascii (to_chars x).

End JS.


(** ** The engine of the application component ([useCalculator]) *)

Module Calculator.

Import JS.
Local Open Scope string_scope.

(** The six [useState] cells of the hook. *)
Record state : Type := mkState {
  display : string;
  storedValue : option number;
  operator : option string;
  waitingForOperand : bool;
  memory : number;
  history : list string
}.

(** The initial values passed to [useState]. *)
Definition initial : state :=
  {| display := "0";
     storedValue := None;
     operator := None;
     waitingForOperand := false;
     memory := of_Z 0;
     history := [] |}.

Definition setDisplay (v : string) (st : state) : state :=
  {| display := v; storedValue := storedValue st; operator := operator st;
     waitingForOperand := waitingForOperand st; memory := memory st;
     history := history st |}.

Definition setStoredValue (v : option number) (st : state) : state :=
  {| display := display st; storedValue := v; operator := operator st;
     waitingForOperand := waitingForOperand st; memory := memory st;
     history := history st |}.

Definition setOperator (v : option string) (st : state) : state :=
  {| display := display st; storedValue := storedValue st; operator := v;
     waitingForOperand := waitingForOperand st; memory := memory st;
     history := history st |}.

Definition setWaitingForOperand (v : bool) (st : state) : state :=
  {| display := display st; storedValue := storedValue st;
     operator := operator st; waitingForOperand := v; memory := memory st;
     history := history st |}.

Definition setMemory (v : number) (st : state) : state :=
  {| display := display st; storedValue := storedValue st;
     operator := operator st; waitingForOperand := waitingForOperand st;
     memory := v; history := history st |}.

(** [setHistory(prev => f(prev))]. *)
Definition setHistory (f : list string -> list string) (st : state) : state :=
  {| display := display st; storedValue := storedValue st;
     operator := operator st; waitingForOperand := waitingForOperand st;
     memory := memory st; history := f (history st) |}.

(** [s.includes(sub)]. *)
Fixpoint includes (s sub : string) : bool :=
  String.prefix sub s
  || match s with
     | EmptyString => false
     | String _ s' => includes s' sub
     end.

(** In each command [st] is the state captured by the closure; the setters
    are applied to the state under construction and every read goes to
    [st]. *)

Definition clearAll (st : state) : state :=
  setWaitingForOperand false
    (setOperator None (setStoredValue None (setDisplay "0" st))).

Definition clearDisplay (st : state) : state :=
  setWaitingForOperand false (setDisplay "0" st).

Definition toggleSign (st : state) : state :=
  let value := parseFloat (display st) in
  setDisplay (toString (neg value)) st.

Definition inputPercent (st : state) : state :=
  let value := parseFloat (display st) in
  setDisplay (toString (div value (of_Z 100))) st.

Definition inputDot (st : state) : state :=
  if waitingForOperand st then
    setWaitingForOperand false (setDisplay "0." st)
  else if negb (includes (display st) ".") then
    setDisplay (display st ++ ".") st
  else st.

Definition inputDigit (digit : string) (st : state) : state :=
  if waitingForOperand st then
    setWaitingForOperand false (setDisplay digit st)
  else
    setDisplay (if String.eqb (display st) "0" then digit
                else display st ++ digit) st.

(** The [switch] on the stored operator; [performOperation] enters it when
    [storedValue] is not [null] and the operator is truthy (neither [null]
    nor the empty string). *)
Definition apply_operator (op : string) (currentValue inputValue : number)
  : number :=
  if String.eqb op "+" then add currentValue inputValue
  else if String.eqb op "-" then sub currentValue inputValue
  else if String.eqb op "×" then mul currentValue inputValue
  else if String.eqb op "÷" then div currentValue inputValue
  else inputValue.

(** The template literal pushed on the history. *)
Definition history_line (currentValue : number) (op : string)
    (inputValue newValue : number) : string :=
  toString currentValue ++ " " ++ op ++ " " ++ toString inputValue
    ++ " = " ++ toString newValue.

Definition performOperation (nextOperator : string) (st : state) : state :=
  let inputValue := parseFloat (display st) in
  let st1 :=
    match storedValue st with
    | None => setStoredValue (Some inputValue) st
    | Some stored =>
        match operator st with
        | Some op =>
            if String.eqb op "" then st
            else
              let currentValue := or_zero stored in
              let newValue := apply_operator op currentValue inputValue in
              setHistory
                (fun prev =>
                   (prev
                    ++ [history_line currentValue op inputValue newValue])%list)
                (setDisplay (toString newValue)
                   (setStoredValue (Some newValue) st))
        | None => st
        end
    end in
  setOperator (Some nextOperator) (setWaitingForOperand true st1).

Definition handleMemoryAdd (st : state) : state :=
  setMemory (add (memory st) (parseFloat (display st))) st.

Definition handleMemorySubtract (st : state) : state :=
  setMemory (sub (memory st) (parseFloat (display st))) st.

Definition handleMemoryRecall (st : state) : state :=
  setWaitingForOperand true (setDisplay (toString (memory st)) st).

Definition handleMemoryClear (st : state) : state :=
  setMemory (of_Z 0) st.

(** The commands the hook returns, as the buttons call them. *)
Inductive command : Type :=
  | ClearAll
  | ClearDisplay
  | ToggleSign
  | InputPercent
  | InputDot
  | InputDigit (digit : string)
  | PerformOperation (nextOperator : string)
  | MemoryAdd
  | MemorySubtract
  | MemoryRecall
  | MemoryClear.

Definition step (st : state) (c : command) : state :=
  match c with
  | ClearAll => clearAll st
  | ClearDisplay => clearDisplay st
  | ToggleSign => toggleSign st
  | InputPercent => inputPercent st
  | InputDot => inputDot st
  | InputDigit d => inputDigit d st
  | PerformOperation o => performOperation o st
  | MemoryAdd => handleMemoryAdd st
  | MemorySubtract => handleMemorySubtract st
  | MemoryRecall => handleMemoryRecall st
  | MemoryClear => handleMemoryClear st
  end.

(** A session: the commands of [cs] in order, one render each. *)
Definition run (st : state) (cs : list command) : state :=
  fold_left step cs st.

(** The digit keys of the keypad pass ['0'] to ['9']. *)
Definition is_digit_key (d : string) : bool :=
  match d with
  | String c EmptyString =>
      match digit_of c with Some _ => true | None => false end
  | _ => false
  end.

(** The operator keys pass ['+'], ['-'], ['×'], ['÷'] and ['=']. *)
Definition is_binary_operator (o : string) : bool :=
  String.eqb o "+" || String.eqb o "-" || String.eqb o "×"
  || String.eqb o "÷".

(** A command as the keypad can issue it: a digit key passes one digit. *)
Definition keypad_command (c : command) : bool :=
  match c with
  | InputDigit d => is_digit_key d
  | _ => true
  end.

(** The number of ['.'] characters of a string. *)
Fixpoint count_dots (s : string) : nat :=
  match s with
  | EmptyString => O
  | String c s' =>
      if Ascii.eqb c "." then S (count_dots s') else count_dots s'
  end.

End Calculator.

(** ** The engine of the earlier revision ([Calculator] in src/App.tsx) *)

Module Legacy.

Import JS.
Local Open Scope string_scope.

(** The four [useState] cells of the component. *)
Record state : Type := mkState {
  displayValue : string;
  storedValue : option number;
  operator : option string;
  waitingForOperand : bool
}.

Definition initial : state :=
  {| displayValue := "0"; storedValue := None; operator := None;
     waitingForOperand := false |}.

Definition setDisplayValue (v : string) (st : state) : state :=
  {| displayValue := v; storedValue := storedValue st;
     operator := operator st; waitingForOperand := waitingForOperand st |}.

Definition setStoredValue (v : option number) (st : state) : state :=
  {| displayValue := displayValue st; storedValue := v;
     operator := operator st; waitingForOperand := waitingForOperand st |}.

Definition setOperator (v : option string) (st : state) : state :=
  {| displayValue := displayValue st; storedValue := storedValue st;
     operator := v; waitingForOperand := waitingForOperand st |}.

Definition setWaitingForOperand (v : bool) (st : state) : state :=
  {| displayValue := displayValue st; storedValue := storedValue st;
     operator := operator st; waitingForOperand := v |}.

(** [s.indexOf(sub)], with [-1] for no occurrence. *)
Definition indexOf (s sub : string) : Z :=
  match String.index 0 sub s with
  | Some n => Z.of_nat n
  | None => -1
  end.

(** ToBoolean on [string | null]. *)
Definition op_truthy (o : option string) : bool :=
  match o with
  | None => false
  | Some s => negb (String.eqb s "")
  end.

Definition clearAll (st : state) : state :=
  setWaitingForOperand false
    (setOperator None (setStoredValue None (setDisplayValue "0" st))).

(** The digit keys pass the Numbers [0] to [9]. *)
Definition inputDigit (digit : number) (st : state) : state :=
  if waitingForOperand st then
    setWaitingForOperand false (setDisplayValue (toString digit) st)
  else
    setDisplayValue (if String.eqb (displayValue st) "0" then toString digit
                     else displayValue st ++ toString digit) st.

Definition inputDot (st : state) : state :=
  if waitingForOperand st then
    setWaitingForOperand false (setDisplayValue "0." st)
  else if Z.eqb (indexOf (displayValue st) ".") (-1) then
    setDisplayValue (displayValue st ++ ".") st
  else st.

(** The [switch]: [newValue] starts at [0] and the default case leaves it. *)
Definition apply_operator (op : string) (currentValue inputValue : number)
  : number :=
  if String.eqb op "+" then add currentValue inputValue
  else if String.eqb op "-" then sub currentValue inputValue
  else if String.eqb op "×" then mul currentValue inputValue
  else if String.eqb op "÷" then div currentValue inputValue
  else of_Z 0.

Definition performOperation (nextOperator : string) (st : state) : state :=
  let inputValue := parseFloat (displayValue st) in
  let st1 :=
    match storedValue st with
    | None => setStoredValue (Some inputValue) st
    | Some stored =>
        match operator st with
        | Some op =>
            if String.eqb op "" then st
            else
              let currentValue := or_zero stored in
              let newValue := apply_operator op currentValue inputValue in
              setDisplayValue (toString newValue)
                (setStoredValue (Some newValue) st)
        | None => st
        end
    end in
  setOperator (Some nextOperator) (setWaitingForOperand true st1).

(** The [setOperator(null)] queued after [performOperation('=')] is the
    last write to the cell. *)
Definition handleEquals (st : state) : state :=
  if op_truthy (operator st) && negb (waitingForOperand st) then
    setOperator None (performOperation "=" st)
  else st.

Definition handlePercentage (st : state) : state :=
  let value := parseFloat (displayValue st) in
  setDisplayValue (toString (div value (of_Z 100))) st.

Definition toggleSign (st : state) : state :=
  let value := parseFloat (displayValue st) in
  setDisplayValue (toString (neg value)) st.

End Legacy.

Import JS Calculator.
Local Open Scope string_scope.
Local Open Scope Z_scope.

(** ** Sessions used in the statements *)

Definition chain_3_plus_4_times_2 : list command :=
  [InputDigit "3"; PerformOperation "+"; InputDigit "4";
   PerformOperation "×"; InputDigit "2"; PerformOperation "="].

Definition memory_session : list command :=
  [MemoryClear; InputDigit "7"; MemoryAdd; InputDigit "3"; MemoryAdd;
   MemoryRecall].

Definition memory_session_cleared : list command :=
  [MemoryClear; InputDigit "7"; MemoryAdd; ClearDisplay; InputDigit "3";
   MemoryAdd; MemoryRecall].

Definition five_by_zero : list command :=
  [InputDigit "5"; PerformOperation "÷"; InputDigit "0";
   PerformOperation "="].

Definition zero_by_zero : list command :=
  [InputDigit "0"; PerformOperation "÷"; InputDigit "0";
   PerformOperation "="].

Definition three_plus_four_equals : list command :=
  [InputDigit "3"; PerformOperation "+"; InputDigit "4";
   PerformOperation "="].

(** The same chain on the keys of the earlier revision, whose [=] key calls
    [handleEquals]. *)
Definition legacy_chain (st : Legacy.state) : Legacy.state :=
  Legacy.handleEquals
    (Legacy.inputDigit (of_Z 2)
       (Legacy.performOperation "×"
          (Legacy.inputDigit (of_Z 4)
             (Legacy.performOperation "+"
                (Legacy.inputDigit (of_Z 3) st))))).

(** The sign of a Number that is neither a zero nor [NaN]. *)
Definition sign_of (x : number) : bool :=
  match x with
  | S754_zero s | S754_infinity s | S754_finite s _ _ => s
  | S754_nan => false
  end.

(** The history line a call of [performOperation] appends in the state
    [st], if it appends one: the [else if (operator)] branch is taken when
    [storedValue] is not null and the operator is truthy. *)
Definition pending_line (st : state) : option string :=
  match Calculator.storedValue st, Calculator.operator st with
  | Some stored, Some op =>
      if String.eqb op "" then None
      else
        let currentValue := or_zero stored in
        let inputValue := parseFloat (display st) in
        Some (history_line currentValue op inputValue
                (apply_operator op currentValue inputValue))
  | _, _ => None
  end.

Definition appended (o : option string) : list string :=
  match o with
  | Some line => [line]
  | None => []
  end.

(** The binary64 values: the specification floats that are zeros,
    infinities, NaN, or finite with a canonical mantissa and exponent. *)
Definition valid (x : number) : bool := valid_binary prec emax x.

(** Number::toString prints both zeros as "0". *)
Definition unsigned_zero (x : number) : number :=
  match x with
  | S754_zero _ => S754_zero false
  | _ => x
  end.

(** [num / den] is the value of the binary64 number [(m, e)]. *)
Definition exact_fraction (m : positive) (e num den : Z) : Prop :=
  num * 2 ^ Z.max 0 (- e) = Zpos m * 2 ^ Z.max 0 e * den.

(** The value of a digit list read after the value [acc]. *)
Definition value_from (acc : Z) (ds : list Z) : Z :=
  fold_left (fun a d => a * 10 + d) ds acc.

Definition is_digit (d : Z) : Prop := 0 <= d <= 9.

(** The head of a text is not a decimal digit. *)
Definition no_digit_head (l : list ascii) : bool :=
  match l with
  | [] => true
  | c :: _ => match digit_of c with Some _ => false | None => true end
  end.

(** The head of a text is not a decimal point. *)
Definition no_dot_head (l : list ascii) : bool :=
  match l with
  | [] => true
  | c :: _ => negb (Ascii.eqb c ".")
  end.

(** Two states that differ at most in the memory cell. *)
Definition same_but_memory (st st' : state) : Prop :=
  display st' = display st
  /\ Calculator.storedValue st' = Calculator.storedValue st
  /\ Calculator.operator st' = Calculator.operator st
  /\ Calculator.waitingForOperand st' = Calculator.waitingForOperand st
  /\ history st' = history st.

(** The Numbers a state holds are binary64 values. *)
Definition wf (st : state) : Prop :=
  valid (memory st) = true
  /\ match Calculator.storedValue st with
     | Some v => valid v = true
     | None => True
     end.

(** The string a digit key passes to [inputDigit]: ['0'] for 0, and so on. *)
Definition digit_key (d : Z) : string := String (digit_char d) EmptyString.

(** Pressing the digit keys [ds] one after the other. *)
Definition type_digits (ds : list Z) : list command :=
  map (fun d => InputDigit (digit_key d)) ds.

(** Pressing digit keys, the point key and digit keys again. *)
Definition type_decimal (ds fs : list Z) : list command :=
  (type_digits ds ++ InputDot :: type_digits fs)%list.

(** A state in which the next digit starts a new operand: the flag is set,
    or the display is "0". *)
Definition fresh (st : state) : Prop :=
  Calculator.waitingForOperand st = true \/ display st = "0".

(** The text of a list of digits. *)
Definition digits_text (ds : list Z) : string :=
  string_of_list_ascii (map digit_char ds).

(** The digits without their leading zeros (the last digit is kept). *)
Fixpoint drop_leading_zeros (ds : list Z) : list Z :=
  match ds with
  | d :: (_ :: _) as rest => if d =? 0 then drop_leading_zeros rest else ds
  | _ => ds
  end.

(** The integer part shown for the typed digits [ds]. *)
Definition integer_part (ds : list Z) : list Z :=
  match ds with
  | [] => [0]
  | _ => drop_leading_zeros ds
  end.

(** The text of an integer part, a point and fraction digits. *)
Definition decimal_text (ds fs : list Z) : string :=
  string_of_list_ascii
    (map digit_char ds ++ "."%char :: map digit_char fs).

(** A command as the buttons issue it: a digit key passes one digit and an
    operator key one of ['+'], ['-'], ['×'], ['÷'], ['=']. *)
Definition button_command (c : command) : bool :=
  match c with
  | InputDigit d => is_digit_key d
  | PerformOperation o => is_binary_operator o || String.eqb o "="
  | _ => true
  end.

(** The stored value and the operator are null together, and a stored
    operator is not the empty string. *)
Definition chain_inv (st : state) : Prop :=
  match Calculator.storedValue st, Calculator.operator st with
  | None, None => True
  | Some _, Some op => op <> ""
  | _, _ => False
  end.

(** Two states that differ at most in the history. *)
Definition same_but_history (st st' : state) : Prop :=
  display st' = display st
  /\ Calculator.storedValue st' = Calculator.storedValue st
  /\ Calculator.operator st' = Calculator.operator st
  /\ Calculator.waitingForOperand st' = Calculator.waitingForOperand st
  /\ memory st' = memory st.

(** The [buttons] table of [CalculatorBody]: the text of each button and
    the command its [onClick] calls (position, size and colours are left to
    the scene). *)
Definition buttons : list (string * command) :=
  [("MC", MemoryClear); ("MR", MemoryRecall); ("M+", MemoryAdd);
   ("M-", MemorySubtract); ("AC", ClearAll);
   ("7", InputDigit "7"); ("8", InputDigit "8"); ("9", InputDigit "9");
   ("÷", PerformOperation "÷"); ("%", InputPercent);
   ("4", InputDigit "4"); ("5", InputDigit "5"); ("6", InputDigit "6");
   ("×", PerformOperation "×"); ("±", ToggleSign);
   ("1", InputDigit "1"); ("2", InputDigit "2"); ("3", InputDigit "3");
   ("-", PerformOperation "-"); ("C", ClearDisplay);
   ("0", InputDigit "0"); (".", InputDot);
   ("+", PerformOperation "+"); ("=", PerformOperation "=")].

(** The keys the two revisions have in common, and the equals key. *)
Inductive key : Type :=
  | KDigit (d : Z)
  | KDot
  | KOperator (op : string)
  | KEquals
  | KAllClear
  | KSign
  | KPercent.

(** The [buttons] table of the earlier revision: text and key. *)
Definition legacy_buttons : list (string * key) :=
  [("C", KAllClear); ("±", KSign); ("%", KPercent); ("÷", KOperator "÷");
   ("7", KDigit 7); ("8", KDigit 8); ("9", KDigit 9); ("×", KOperator "×");
   ("4", KDigit 4); ("5", KDigit 5); ("6", KDigit 6); ("-", KOperator "-");
   ("1", KDigit 1); ("2", KDigit 2); ("3", KDigit 3); ("+", KOperator "+");
   ("0", KDigit 0); (".", KDot); ("=", KEquals)].

(** What a key calls in the earlier revision: the digit keys pass a Number,
    the equals key calls [handleEquals]. *)
Definition legacy_press (ls : Legacy.state) (k : key) : Legacy.state :=
  match k with
  | KDigit d => Legacy.inputDigit (of_Z d) ls
  | KDot => Legacy.inputDot ls
  | KOperator op => Legacy.performOperation op ls
  | KEquals => Legacy.handleEquals ls
  | KAllClear => Legacy.clearAll ls
  | KSign => Legacy.toggleSign ls
  | KPercent => Legacy.handlePercentage ls
  end.

Definition legacy_run (ls : Legacy.state) (ks : list key) : Legacy.state :=
  fold_left legacy_press ks ls.

(** What the same key calls in the application component: the digit keys
    pass a string, the equals key calls [performOperation('=')]. *)
Definition calculator_command (k : key) : command :=
  match k with
  | KDigit d => InputDigit (digit_key d)
  | KDot => InputDot
  | KOperator op => PerformOperation op
  | KEquals => PerformOperation "="
  | KAllClear => ClearAll
  | KSign => ToggleSign
  | KPercent => InputPercent
  end.

(** A key of the keypad: a digit 0 to 9, one of the four operators, or a
    key without argument. *)
Definition keypad_key (k : key) : bool :=
  match k with
  | KDigit d => (0 <=? d) && (d <=? 9)
  | KOperator op => is_binary_operator op
  | _ => true
  end.

Definition not_equals (k : key) : bool :=
  match k with
  | KEquals => false
  | _ => true
  end.

(** The two engines hold the same display, stored value, operator and
    flag. *)
Definition agree (ls : Legacy.state) (st : state) : Prop :=
  Legacy.displayValue ls = display st
  /\ Legacy.storedValue ls = Calculator.storedValue st
  /\ Legacy.operator ls = Calculator.operator st
  /\ Legacy.waitingForOperand ls = Calculator.waitingForOperand st.

(** The stored operator is null or one of the four arithmetic operators. *)
Definition arithmetic_operator (o : option string) : Prop :=
  match o with
  | None => True
  | Some op => is_binary_operator op = true
  end.

(** * Properties *)

(** ** Chained evaluation *)

Lemma performOperation_resolution_ignores_next (next1 next2 : string)
    (st : state) :
  display (performOperation next1 st) = display (performOperation next2 st)
  /\ Calculator.storedValue (performOperation next1 st)
     = Calculator.storedValue (performOperation next2 st)
  /\ history (performOperation next1 st) = history (performOperation next2 st).
Proof.
  unfold performOperation.
  destruct (Calculator.storedValue st) as [stored|]; [|now cbn].
  destruct (Calculator.operator st) as [op|]; [|now cbn].
  destruct (String.eqb op ""); now cbn.
Qed.

(** C1. Chained operations are evaluated left to right, without operator
    precedence: from the initial state the keys 3 + 4 × 2 = leave the display
    at "14" (in both revisions), and what a press of an operator key resolves
    never depends on the operator being pressed. *)
Theorem C1_left_to_right_chain :
  display (run initial chain_3_plus_4_times_2) = "14"
  /\ Legacy.displayValue (legacy_chain Legacy.initial) = "14"
  /\ forall (next1 next2 : string) (st : state),
       display (performOperation next1 st)
       = display (performOperation next2 st).
Proof.
  split; [vm_compute; reflexivity|].
  split; [vm_compute; reflexivity|].
  intros next1 next2 st.
  apply (performOperation_resolution_ignores_next next1 next2 st).
Qed.

(** ** The operator cell *)

Lemma performOperation_operator (next : string) (st : state) :
  Calculator.operator (performOperation next st) = Some next.
Proof. reflexivity. Qed.

Lemma performOperation_waiting (next : string) (st : state) :
  Calculator.waitingForOperand (performOperation next st) = true.
Proof. reflexivity. Qed.

Lemma performOperation_stored (next : string) (st : state) :
  Calculator.storedValue (performOperation next st) <> None.
Proof.
  unfold performOperation.
  destruct (Calculator.storedValue st) as [stored|] eqn:Hs; [|now cbn].
  destruct (Calculator.operator st) as [op|]; cbn.
  - destruct (String.eqb op ""); cbn; congruence.
  - congruence.
Qed.

Lemma apply_operator_equals (a v : number) : apply_operator "=" a v = v.
Proof. reflexivity. Qed.

(** After [performOperation "="] the next operator press goes through the
    [switch] with the stored operator ["="], that is through its default
    case. *)
Lemma operator_after_equals (op : string) (st : state) :
  let s1 := performOperation "=" st in
  let v := parseFloat (display s1) in
  let s2 := performOperation op s1 in
  Calculator.storedValue s2 = Some v
  /\ display s2 = toString v
  /\ Calculator.operator s2 = Some op
  /\ exists w, Calculator.storedValue s1 = Some w
       /\ history s2 = (history s1 ++ [history_line (or_zero w) "=" v v])%list.
Proof.
  intros s1 v s2.
  destruct (Calculator.storedValue s1) as [w|] eqn:Hw.
  - assert (Ho : Calculator.operator s1 = Some "=") by reflexivity.
    subst s2. unfold performOperation at 1 2 3 4.
    rewrite Hw, Ho. cbn.
    repeat split. exists w. split; reflexivity.
  - exfalso. exact (performOperation_stored "=" st Hw).
Qed.

(** C2 (as the code has it). [performOperation] stores whatever operator it
    is given, ["="] included, sets the fresh-operand flag and leaves
    [storedValue] non-null.  An operator pressed after ["="] therefore does
    not go through the capture step: it resolves the stored ["="] through the
    default case of the [switch], which reseeds [storedValue] and the display
    with the value shown and appends a history line.  In the earlier revision
    the [=] key calls [handleEquals], which clears the operator exactly when
    its guard passes. *)
Theorem C2_operator_after_performOperation :
  (forall (next : string) (st : state),
     Calculator.operator (performOperation next st) = Some next
     /\ Calculator.waitingForOperand (performOperation next st) = true
     /\ Calculator.storedValue (performOperation next st) <> None)
  /\ (forall (op : string) (st : state),
        let s1 := performOperation "=" st in
        let v := parseFloat (display s1) in
        let s2 := performOperation op s1 in
        Calculator.storedValue s2 = Some v
        /\ display s2 = toString v
        /\ Calculator.operator s2 = Some op
        /\ exists w, Calculator.storedValue s1 = Some w
             /\ history s2
                = (history s1 ++ [history_line (or_zero w) "=" v v])%list)
  /\ (forall (next : string) (st : Legacy.state),
        Legacy.operator (Legacy.performOperation next st) = Some next)
  /\ (forall st : Legacy.state,
        Legacy.operator (Legacy.handleEquals st)
        = if Legacy.op_truthy (Legacy.operator st)
             && negb (Legacy.waitingForOperand st)
          then None else Legacy.operator st).
Proof.
  split.
  { intros next st. split; [reflexivity|]. split; [reflexivity|].
    apply performOperation_stored. }
  split.
  { intros op st. apply operator_after_equals. }
  split.
  { intros next st. reflexivity. }
  intros st. unfold Legacy.handleEquals.
  destruct (Legacy.op_truthy (Legacy.operator st)
            && negb (Legacy.waitingForOperand st)); reflexivity.
Qed.

(** C2, as stated, fails: after [performOperation "="] the operator cell
    holds ["="], not [null]. *)
Lemma C2_counterexample :
  ~ (forall st : state, Calculator.operator (performOperation "=" st) = None).
Proof.
  intros H. specialize (H initial). discriminate H.
Qed.

(** ** Memory *)

(** C3 (as the code has it). [handleMemoryAdd] does not set the
    fresh-operand flag, so in the session MC 7 M+ 3 M+ MR the digit 3 is
    appended to "7": the second M+ adds 73 and MR shows "80".  With the entry
    cleared between the two additions the session shows "10". *)
Theorem C3_memory_session :
  display (run initial memory_session) = "80"
  /\ memory (run initial memory_session) = parseFloat "80"
  /\ display (run initial [MemoryClear; InputDigit "7"; MemoryAdd;
                           InputDigit "3"]) = "73"
  /\ display (run initial memory_session_cleared) = "10".
Proof.
  repeat split; vm_compute; reflexivity.
Qed.

(** C3, as stated, fails: the session does not end with the display "10". *)
Lemma C3_counterexample :
  display (run initial memory_session) <> "10".
Proof.
  vm_compute. discriminate.
Qed.

(** ** Division by zero *)

Lemma div_by_zero (a : number) (s : bool) :
  div (or_zero a) (S754_zero s)
  = if truthy a then S754_infinity (xorb (sign_of a) s) else NaN.
Proof.
  destruct a as [sa|sa| |sa m e]; reflexivity.
Qed.

(** C4. Dividing by zero raises nothing: from the initial state the keys
    5 ÷ 0 = leave the display at "Infinity"; and whenever a stored [÷] is
    resolved against a display that reads as a zero, the display becomes
    "Infinity" or "-Infinity" by the signs of the stored value and of the
    zero, or "NaN" when the stored value is a zero or NaN. *)
Theorem C4_division_by_zero (next : string) (st : state) (a : number)
    (s : bool)
    (Hstored : Calculator.storedValue st = Some a)
    (Hop : Calculator.operator st = Some "÷")
    (Hzero : parseFloat (display st) = S754_zero s) :
  display (run initial five_by_zero) = "Infinity"
  /\ display (performOperation next st)
     = (if truthy a
        then if xorb (sign_of a) s then "-Infinity" else "Infinity"
        else "NaN").
Proof.
  split; [vm_compute; reflexivity|].
  unfold performOperation. rewrite Hstored, Hop, Hzero. cbn [String.eqb].
  change (String.eqb "÷" "") with false. cbv iota.
  cbn [display setOperator setWaitingForOperand setHistory setDisplay].
  change (apply_operator "÷" (or_zero a) (S754_zero s))
    with (div (or_zero a) (S754_zero s)).
  rewrite div_by_zero.
  destruct (truthy a); [|reflexivity].
  destruct (xorb (sign_of a) s); reflexivity.
Qed.

Lemma C4_witness :
  display (run initial five_by_zero) = "Infinity"
  /\ display (performOperation "="
                (run initial [InputDigit "5"; PerformOperation "÷";
                              InputDigit "0"]))
     = "Infinity".
Proof.
  exact (C4_division_by_zero "="
           (run initial [InputDigit "5"; PerformOperation "÷"; InputDigit "0"])
           (parseFloat "5") false eq_refl eq_refl eq_refl).
Defined.

(** ** Clearing *)

(** C5. [clearAll] resets the display to "0", the stored value and the
    operator to null and the fresh-operand flag to false, and leaves the
    memory and the history as they were. *)
Theorem C5_clearAll_frame (st : state) :
  display (clearAll st) = "0"
  /\ Calculator.storedValue (clearAll st) = None
  /\ Calculator.operator (clearAll st) = None
  /\ Calculator.waitingForOperand (clearAll st) = false
  /\ memory (clearAll st) = memory st
  /\ history (clearAll st) = history st.
Proof.
  repeat split.
Qed.

(** ** History *)

Lemma performOperation_history (next : string) (st : state) :
  history (performOperation next st)
  = (history st ++ appended (pending_line st))%list.
Proof.
  unfold performOperation, pending_line.
  destruct (Calculator.storedValue st) as [stored|];
    [|cbn; now rewrite app_nil_r].
  destruct (Calculator.operator st) as [op|];
    [|cbn; now rewrite app_nil_r].
  destruct (String.eqb op ""); cbn; [now rewrite app_nil_r|reflexivity].
Qed.

Lemma step_history (st : state) (c : command) :
  history (step st c)
  = match c with
    | PerformOperation _ => (history st ++ appended (pending_line st))%list
    | _ => history st
    end.
Proof.
  destruct c; try reflexivity.
  - cbn. unfold inputDot.
    destruct (Calculator.waitingForOperand st); [reflexivity|].
    destruct (negb (includes (display st) ".")); reflexivity.
  - cbn. unfold inputDigit.
    destruct (Calculator.waitingForOperand st); reflexivity.
  - apply performOperation_history.
Qed.

Lemma run_history_prefix (cs : list command) :
  forall st : state, exists l, history (run st cs) = (history st ++ l)%list.
Proof.
  induction cs as [|c cs IH]; intros st.
  - exists []. cbn. now rewrite app_nil_r.
  - cbn. destruct (IH (step st c)) as [l Hl].
    unfold run in Hl. rewrite Hl, step_history.
    destruct c; try (now exists l).
    exists (appended (pending_line st) ++ l)%list.
    now rewrite app_assoc.
Qed.

(** C6 (as the code has it). The history is append-only and ordered: only
    [performOperation] changes it, a call appends one line exactly when
    [storedValue] is not null and the stored operator is truthy (the four
    arithmetic operators and also the ["="] left by an equals press), the
    line records the left operand, the operator, the right operand and the
    result, and every session keeps the earlier lines as a prefix; after the
    chain 3 + 4 × 2 = the history is "3 + 4 = 7", "7 × 2 = 14".  The right
    operand is whatever the display reads as, a freshly typed operand or not:
    3 + + appends "3 + 3 = 6". *)
Theorem C6_history_append_only :
  (forall (st : state) (c : command),
     history (step st c)
     = match c with
       | PerformOperation _ => (history st ++ appended (pending_line st))%list
       | _ => history st
       end)
  /\ (forall (st : state) (cs : list command),
        exists l, history (run st cs) = (history st ++ l)%list)
  /\ (forall (st : state) (stored : number) (op : string),
        pending_line
          {| display := display st; storedValue := Some stored;
             operator := Some op;
             waitingForOperand := Calculator.waitingForOperand st;
             memory := memory st; history := history st |}
        = if String.eqb op "" then None
          else Some (toString (or_zero stored) ++ " " ++ op ++ " "
                     ++ toString (parseFloat (display st)) ++ " = "
                     ++ toString (apply_operator op (or_zero stored)
                                    (parseFloat (display st)))))
  /\ (forall st : state,
        Calculator.storedValue st = None \/ Calculator.operator st = None ->
        pending_line st = None)
  /\ history (run initial chain_3_plus_4_times_2)
     = ["3 + 4 = 7"; "7 × 2 = 14"]
  /\ history (run initial [InputDigit "3"; PerformOperation "+";
                           PerformOperation "+"])
     = ["3 + 3 = 6"].
Proof.
  split; [exact step_history|].
  split; [intros st cs; apply run_history_prefix|].
  split.
  { intros st stored op. unfold pending_line. cbn.
    destruct (String.eqb op ""); reflexivity. }
  split.
  { intros st [H|H]; unfold pending_line; rewrite H; [reflexivity|].
    destruct (Calculator.storedValue st); reflexivity. }
  split; vm_compute; reflexivity.
Qed.

(** C6, as stated, fails: a call of [performOperation] also appends a line
    when the stored operator is the ["="] of an equals press, which is none
    of the four arithmetic operators. *)
Lemma C6_counterexample :
  ~ (forall (st : state) (next : string),
       history (performOperation next st) <> history st ->
       exists op, Calculator.operator st = Some op
                  /\ is_binary_operator op = true).
Proof.
  intros H.
  destruct (H (run initial three_plus_four_equals) "+") as [op [Hop Hbin]].
  - vm_compute. discriminate.
  - vm_compute in Hop. injection Hop as <-. vm_compute in Hbin.
    discriminate Hbin.
Qed.

(** ** Unparseable display *)

Lemma add_NaN_r (x : number) : add x NaN = NaN.
Proof. destruct x as [s|s| |s m e]; reflexivity. Qed.

Lemma sub_NaN_r (x : number) : sub x NaN = NaN.
Proof. destruct x as [s|s| |s m e]; reflexivity. Qed.

Lemma mul_NaN_r (x : number) : mul x NaN = NaN.
Proof. destruct x as [s|s| |s m e]; reflexivity. Qed.

Lemma div_NaN_r (x : number) : div x NaN = NaN.
Proof. destruct x as [s|s| |s m e]; reflexivity. Qed.

Lemma apply_operator_NaN (op : string) (x : number) :
  apply_operator op x NaN = NaN.
Proof.
  unfold apply_operator.
  destruct (String.eqb op "+"); [apply add_NaN_r|].
  destruct (String.eqb op "-"); [apply sub_NaN_r|].
  destruct (String.eqb op "×"); [apply mul_NaN_r|].
  destruct (String.eqb op "÷"); [apply div_NaN_r|].
  reflexivity.
Qed.

(** C9 (as the code has it). When the display does not parse, [parseFloat]
    gives NaN and the commands carry it on instead of replacing it by 0:
    [toggleSign] and [inputPercent] show "NaN", the memory commands leave NaN
    in the memory, and [performOperation] stores NaN as the first operand or
    resolves the stored operator to NaN and shows "NaN".  The commands are
    total functions, so none of them can fail. *)
Theorem C9_unparseable_display_propagates (st : state)
    (Hnan : parseFloat (display st) = NaN) :
  display (toggleSign st) = "NaN"
  /\ display (inputPercent st) = "NaN"
  /\ memory (handleMemoryAdd st) = NaN
  /\ memory (handleMemorySubtract st) = NaN
  /\ forall next : string,
       Calculator.storedValue (performOperation next st)
       = match Calculator.storedValue st, Calculator.operator st with
         | None, _ => Some NaN
         | Some stored, Some op =>
             if String.eqb op "" then Some stored else Some NaN
         | Some stored, None => Some stored
         end
       /\ display (performOperation next st)
          = match Calculator.storedValue st, Calculator.operator st with
            | Some stored, Some op =>
                if String.eqb op "" then display st else "NaN"
            | _, _ => display st
            end.
Proof.
  split; [unfold toggleSign; rewrite Hnan; reflexivity|].
  split; [unfold inputPercent; rewrite Hnan; reflexivity|].
  split; [unfold handleMemoryAdd; rewrite Hnan; cbn; apply add_NaN_r|].
  split; [unfold handleMemorySubtract; rewrite Hnan; cbn; apply sub_NaN_r|].
  intros next. unfold performOperation. rewrite Hnan.
  destruct (Calculator.storedValue st) as [stored|] eqn:Hs;
    [|split; reflexivity].
  destruct (Calculator.operator st) as [op|] eqn:Ho;
    [|split; cbn; now rewrite ?Hs].
  destruct (String.eqb op ""); [split; cbn; now rewrite ?Hs|].
  cbn. rewrite apply_operator_NaN. split; reflexivity.
Qed.

Lemma C9_witness :
  display (toggleSign (run initial zero_by_zero)) = "NaN"
  /\ display (inputPercent (run initial zero_by_zero)) = "NaN".
Proof.
  pose proof (C9_unparseable_display_propagates
                (run initial zero_by_zero) eq_refl) as H.
  split; [exact (proj1 H)|exact (proj1 (proj2 H))].
Defined.

(** C9, as stated, fails: on the display "NaN" left by 0 ÷ 0 = the sign key
    shows "NaN", whereas a value taken as 0 would show "0". *)
Lemma C9_counterexample :
  ~ (forall st : state,
       parseFloat (display st) = NaN ->
       display (toggleSign st) = toString (neg (of_Z 0))).
Proof.
  intros H. specialize (H (run initial zero_by_zero) eq_refl).
  vm_compute in H. discriminate H.
Qed.

(** ** The memory commands *)

(** C10. [handleMemoryAdd], [handleMemorySubtract] and [handleMemoryClear]
    change the memory cell only.  In particular they leave the fresh-operand
    flag alone, so a digit pressed after M+ does to the display what it would
    have done before M+ (after 7 M+ the digit 3 gives "73"); among the memory
    commands only [handleMemoryRecall] sets the flag. *)
Theorem C10_memory_commands_frame (st : state) :
  same_but_memory st (handleMemoryAdd st)
  /\ same_but_memory st (handleMemorySubtract st)
  /\ same_but_memory st (handleMemoryClear st)
  /\ (forall digit : string,
        display (inputDigit digit (handleMemoryAdd st))
        = display (inputDigit digit st))
  /\ display (run initial [InputDigit "7"; MemoryAdd; InputDigit "3"]) = "73"
  /\ Calculator.waitingForOperand (handleMemoryRecall st) = true.
Proof.
  split; [repeat split|]. split; [repeat split|]. split; [repeat split|].
  split.
  { intros digit. unfold inputDigit. cbn.
    destruct (Calculator.waitingForOperand st); reflexivity. }
  split; reflexivity.
Qed.

(** ** The text of a Number has at most one decimal point *)

Lemma dots_app (l1 l2 : list ascii) :
  dots (l1 ++ l2) = (dots l1 + dots l2)%nat.
Proof.
  induction l1 as [|c l1 IH]; [reflexivity|].
  cbn. destruct (Ascii.eqb c "."); cbn; now rewrite IH.
Qed.

Lemma dots_cons (c : ascii) (l : list ascii) :
  dots (c :: l) = ((if Ascii.eqb c "." then 1 else 0) + dots l)%nat.
Proof.
  cbn. destruct (Ascii.eqb c "."); reflexivity.
Qed.

Lemma count_dots_of_list (l : list ascii) :
  count_dots (string_of_list_ascii l) = dots l.
Proof.
  induction l as [|c l IH]; [reflexivity|].
  cbn. now rewrite IH.
Qed.

Lemma count_dots_append (s1 s2 : string) :
  count_dots (s1 ++ s2) = (count_dots s1 + count_dots s2)%nat.
Proof.
  induction s1 as [|c s1 IH]; [reflexivity|].
  cbn. destruct (Ascii.eqb c "."); cbn; now rewrite IH.
Qed.

Lemma log2_tenth (n : Z) :
  10 <= n -> Z.log2 (n / 10) < Z.log2 n.
Proof.
  intros Hn.
  assert (H1 : 0 < n / 10) by (apply Z.div_str_pos; lia).
  assert (H2 : 2 * (n / 10) <= n).
  { pose proof (Z.mul_div_le n 10 ltac:(lia)). lia. }
  pose proof (Z.log2_double (n / 10) H1) as H3.
  pose proof (Z.log2_le_mono _ _ H2) as H4.
  lia.
Qed.

Lemma digits_fuel_le9 (f : nat) :
  forall (n : Z) (acc : list Z),
    Z.log2 n <= Z.of_nat f ->
    Forall (fun d => d <= 9) acc ->
    Forall (fun d => d <= 9) (digits_fuel f n acc).
Proof.
  induction f as [|f IH]; intros n acc Hf Hacc.
  - cbn. constructor; [|exact Hacc].
    destruct (Z.le_gt_cases n 1) as [H|H]; [lia|].
    pose proof (Z.log2_pos n H). lia.
  - cbn [digits_fuel]. destruct (n <? 10) eqn:Hlt.
    + constructor; [|exact Hacc]. apply Z.ltb_lt in Hlt. lia.
    + apply Z.ltb_ge in Hlt. apply IH.
      * pose proof (log2_tenth n Hlt). lia.
      * constructor; [|exact Hacc].
        pose proof (Z.mod_pos_bound n 10 ltac:(lia)). lia.
Qed.

Lemma digits_le9 (n : Z) : Forall (fun d => d <= 9) (digits n).
Proof.
  unfold digits. apply digits_fuel_le9; [|constructor].
  pose proof (Z.log2_nonneg n). lia.
Qed.

Lemma digit_char_cases (d : Z) :
  d <= 9 ->
  exists k : nat, (k <= 9)%nat /\ digit_char d = ascii_of_nat (48 + k).
Proof.
  intros Hd. exists (Z.to_nat d). split; [lia|reflexivity].
Qed.

Ltac ten_cases k Hk :=
  destruct k as [|[|[|[|[|[|[|[|[|[|k]]]]]]]]]]; [..|exfalso; lia].

Lemma digit_char_not_dot (d : Z) :
  d <= 9 -> Ascii.eqb (digit_char d) "." = false.
Proof.
  intros Hd. destruct (digit_char_cases d Hd) as [k [Hk ->]].
  ten_cases k Hk; reflexivity.
Qed.

Lemma dots_digit_chars (n : Z) : dots (digit_chars n) = O.
Proof.
  unfold digit_chars. pose proof (digits_le9 n) as H.
  induction H as [|d ds Hd _ IH]; [reflexivity|].
  cbn [map dots]. now rewrite (digit_char_not_dot d Hd).
Qed.

Lemma dots_zeros (n : Z) : dots (zeros n) = O.
Proof.
  unfold zeros. induction (Z.to_nat n) as [|k IH]; [reflexivity|exact IH].
Qed.

Lemma dots_render (ds : list ascii) (n : Z) :
  dots ds = O -> (dots (render ds n) <= 1)%nat.
Proof.
  intros Hds. unfold render.
  destruct ((Z.of_nat (length ds) <=? n) && (n <=? 21)).
  { rewrite dots_app, Hds, dots_zeros. lia. }
  destruct ((0 <? n) && (n <=? 21)).
  { rewrite dots_app. cbn.
    rewrite <- (firstn_skipn (Z.to_nat n) ds), dots_app in Hds. lia. }
  destruct ((-6 <? n) && (n <=? 0)).
  { cbn. rewrite dots_app, Hds, dots_zeros. lia. }
  assert (Hex : forall e : Z,
            dots ("e"%char :: (if e <? 0 then "-"%char else "+"%char)
                    :: digit_chars (Z.abs e)) = O).
  { intros e. cbn. destruct (e <? 0); cbn; apply dots_digit_chars. }
  cbv zeta.
  destruct ds as [|d [|d' rest]].
  - rewrite Hex. lia.
  - rewrite (dots_cons d) in Hds |- *. rewrite Hex. cbn [dots] in Hds. lia.
  - rewrite (dots_cons d) in Hds |- *.
    rewrite (dots_cons "."). change (Ascii.eqb "." ".") with true.
    change (d' :: rest ++ ?x) with ((d' :: rest) ++ x).
    rewrite dots_app, Hex. lia.
Qed.

Lemma dots_to_chars (x : number) : (dots (to_chars x) <= 1)%nat.
Proof.
  destruct x as [s|[|]| |[|] m e]; cbn [to_chars];
    try (cbn; lia).
  - cbn [dots]. change (Ascii.eqb "-" ".") with false. cbv iota.
    apply dots_render, dots_digit_chars.
  - apply dots_render, dots_digit_chars.
Qed.

Lemma count_dots_toString (x : number) : (count_dots (toString x) <= 1)%nat.
Proof.
  unfold toString. rewrite count_dots_of_list. apply dots_to_chars.
Qed.

Lemma includes_dot_false (s : string) :
  includes s "." = false -> count_dots s = O.
Proof.
  induction s as [|c s IH]; [reflexivity|].
  cbn [includes count_dots]. intros H.
  apply orb_false_iff in H. destruct H as [Hp Hi].
  rewrite (IH Hi).
  destruct (Ascii.eqb c ".") eqn:Hc; [|reflexivity].
  apply Ascii.eqb_eq in Hc. subst c. cbn in Hp.
  destruct s; discriminate Hp.
Qed.

Lemma is_digit_key_no_dot (d : string) :
  is_digit_key d = true -> count_dots d = O.
Proof.
  destruct d as [|c [|c' d]]; try discriminate.
  cbn. intros H. destruct (Ascii.eqb c ".") eqn:Hc; [|reflexivity].
  apply Ascii.eqb_eq in Hc. subst c. discriminate H.
Qed.

(** One command of the keypad keeps the display at no more than one
    decimal point. *)
Lemma step_dots (st : state) (c : command) :
  keypad_command c = true ->
  (count_dots (display st) <= 1)%nat ->
  (count_dots (display (step st c)) <= 1)%nat.
Proof.
  intros Hc Hst.
  destruct c; cbn [step keypad_command] in *.
  - cbn. lia.
  - cbn. lia.
  - apply count_dots_toString.
  - apply count_dots_toString.
  - unfold inputDot. destruct (Calculator.waitingForOperand st); [cbn; lia|].
    destruct (includes (display st) ".") eqn:Hi; cbn [negb]; [exact Hst|].
    cbn [display setDisplay]. rewrite count_dots_append.
    rewrite (includes_dot_false _ Hi). cbn. lia.
  - pose proof (is_digit_key_no_dot _ Hc) as Hd.
    unfold inputDigit. destruct (Calculator.waitingForOperand st).
    + cbn. lia.
    + cbn [display setDisplay].
      destruct (String.eqb (display st) "0"); [lia|].
      rewrite count_dots_append. lia.
  - unfold performOperation.
    destruct (Calculator.storedValue st) as [stored|]; [|exact Hst].
    destruct (Calculator.operator st) as [op|]; [|exact Hst].
    destruct (String.eqb op ""); [exact Hst|].
    cbn. apply count_dots_toString.
  - exact Hst.
  - exact Hst.
  - apply count_dots_toString.
  - exact Hst.
Qed.

Lemma run_dots (cs : list command) :
  forall st : state,
    forallb keypad_command cs = true ->
    (count_dots (display st) <= 1)%nat ->
    (count_dots (display (run st cs)) <= 1)%nat.
Proof.
  induction cs as [|c cs IH]; intros st Hcs Hst; [exact Hst|].
  cbn in Hcs. apply andb_true_iff in Hcs. destruct Hcs as [Hc Hcs].
  cbn. apply (IH (step st c) Hcs). now apply step_dots.
Qed.

(** C7. After every sequence of keypad commands from the initial state the
    display holds at most one '.'; and [inputDot] changes nothing when the
    display already holds a '.' and the fresh-operand flag is false. *)
Theorem C7_at_most_one_decimal_point (cs : list command) (st : state)
    (Hcs : forallb keypad_command cs = true)
    (Hdot : includes (display st) "." = true)
    (Hwait : Calculator.waitingForOperand st = false) :
  (count_dots (display (run initial cs)) <= 1)%nat
  /\ inputDot st = st.
Proof.
  split.
  - apply run_dots; [exact Hcs|cbn; lia].
  - unfold inputDot. now rewrite Hwait, Hdot.
Qed.

Lemma C7_witness :
  (count_dots (display (run initial [InputDigit "1"; InputDot; InputDot;
                                     InputDigit "5"; InputDot])) <= 1)%nat
  /\ inputDot (run initial [InputDigit "1"; InputDot])
     = run initial [InputDigit "1"; InputDot].
Proof.
  exact (C7_at_most_one_decimal_point
           [InputDigit "1"; InputDot; InputDot; InputDigit "5"; InputDot]
           (run initial [InputDigit "1"; InputDot])
           eq_refl eq_refl eq_refl).
Defined.

(** ** Binary64 rounding: the results are binary64 values *)

Lemma fexp_unfold (e : Z) : fexp prec emax e = Z.max (e - 53) (-1074).
Proof. reflexivity. Qed.

Lemma fexp_mono (a c : Z) : a <= c -> fexp prec emax a <= fexp prec emax c.
Proof. rewrite !fexp_unfold. lia. Qed.

Lemma digits2_pos_size (p : positive) : digits2_pos p = Pos.size p.
Proof. induction p; cbn; congruence. Qed.

Lemma Zdigits2_log2 (m : Z) : 0 < m -> Zdigits2 m = Z.log2 m + 1.
Proof.
  destruct m as [|p|p]; try lia. intros _.
  cbn [Zdigits2]. rewrite digits2_pos_size.
  destruct p; cbn; lia.
Qed.

Lemma Zdigits2_nonneg (m : Z) : 0 <= Zdigits2 m.
Proof. destruct m; cbn; lia. Qed.

Lemma Zdigits2_pos (m : Z) : 0 < m -> 0 < Zdigits2 m.
Proof.
  intros H. rewrite Zdigits2_log2 by exact H.
  pose proof (Z.log2_nonneg m). lia.
Qed.

Lemma Zdigits2_mono (a c : Z) : 0 <= a -> a <= c -> Zdigits2 a <= Zdigits2 c.
Proof.
  intros Ha Hac. destruct (Z.eq_dec a 0) as [->|Hn].
  - apply Zdigits2_nonneg.
  - rewrite !Zdigits2_log2 by lia.
    pose proof (Z.log2_le_mono a c Hac). lia.
Qed.

Lemma Zdigits2_bounds (m : Z) :
  0 < m -> 2 ^ (Zdigits2 m - 1) <= m < 2 ^ Zdigits2 m.
Proof.
  intros H. rewrite Zdigits2_log2 by exact H.
  replace (Z.log2 m + 1 - 1) with (Z.log2 m) by lia.
  exact (Z.log2_spec m H).
Qed.

Lemma Zdigits2_div_pow2 (m n : Z) :
  0 <= n -> 0 < m / 2 ^ n -> Zdigits2 (m / 2 ^ n) = Zdigits2 m - n.
Proof.
  intros Hn Hq.
  assert (Hm : 0 < m).
  { destruct (Z.lt_trichotomy m 0) as [H|[H|H]]; [|subst m|exact H].
    - pose proof (Z.div_lt_upper_bound m (2 ^ n) 0
                    ltac:(apply Z.pow_pos_nonneg; lia) ltac:(lia)). lia.
    - rewrite Z.div_0_l in Hq by (apply Z.pow_nonzero; lia). lia. }
  rewrite !Zdigits2_log2 by assumption.
  rewrite <- Z.shiftr_div_pow2 in Hq |- * by exact Hn.
  rewrite Z.log2_shiftr by exact Hm.
  destruct (Z.le_gt_cases n (Z.log2 m)) as [H|H]; [lia|].
  exfalso.
  assert (Hlt : m < 2 ^ n) by (apply Z.log2_lt_pow2; lia).
  rewrite Z.shiftr_div_pow2, Z.div_small in Hq by lia. lia.
Qed.

Lemma shr_1_m (r : shr_record) :
  0 <= shr_m r -> shr_m (shr_1 r) = shr_m r / 2.
Proof.
  destruct r as [m rb sb]. cbn [shr_m]. intros H.
  rewrite <- Z.div2_div.
  destruct m as [|[p|p|]|p]; try lia; reflexivity.
Qed.

Lemma iter_shr_1_m (p : positive) :
  forall r : shr_record,
    0 <= shr_m r ->
    shr_m (iter_pos shr_1 p r) = shr_m r / 2 ^ Zpos p.
Proof.
  induction p as [p IH|p IH|]; intros r Hr; cbn [iter_pos].
  - assert (H1 : 0 <= shr_m (shr_1 r)).
    { rewrite shr_1_m by exact Hr. apply Z.div_pos; lia. }
    assert (H2 : 0 <= shr_m (iter_pos shr_1 p (shr_1 r))).
    { rewrite IH by exact H1. apply Z.div_pos; [exact H1|].
      apply Z.pow_pos_nonneg; lia. }
    rewrite (IH _ H2), (IH _ H1), shr_1_m by exact Hr.
    assert (Hp : 0 < 2 ^ Zpos p) by (apply Z.pow_pos_nonneg; lia).
    rewrite !Z.div_div by lia.
    f_equal. replace (Zpos p~1) with (1 + Zpos p + Zpos p) by lia.
    rewrite !Z.pow_add_r by lia. change (2 ^ 1) with 2. ring.
  - assert (H1 : 0 <= shr_m (iter_pos shr_1 p r)).
    { rewrite IH by exact Hr. apply Z.div_pos; [exact Hr|].
      apply Z.pow_pos_nonneg; lia. }
    rewrite (IH _ H1), (IH _ Hr).
    assert (Hp : 0 < 2 ^ Zpos p) by (apply Z.pow_pos_nonneg; lia).
    rewrite !Z.div_div by lia.
    f_equal. replace (Zpos p~0) with (Zpos p + Zpos p) by lia.
    rewrite !Z.pow_add_r by lia. ring.
  - apply shr_1_m. exact Hr.
Qed.

Lemma shr_record_of_loc_m (m : Z) (l : location) :
  shr_m (shr_record_of_loc m l) = m.
Proof. destruct l as [|[| |]]; reflexivity. Qed.

(** Shifting to the exponent [fexp] asks for gives a canonical pair,
    provided the shift does not go left. *)
Lemma shr_fexp_spec (m e : Z) (l : location) :
  0 <= m ->
  e <= fexp prec emax (Zdigits2 m + e) ->
  let r := shr_fexp prec emax m e l in
  0 <= shr_m (fst r)
  /\ snd r = fexp prec emax (Zdigits2 m + e)
  /\ shr_m (fst r) = m / 2 ^ (snd r - e)
  /\ fexp prec emax (Zdigits2 (shr_m (fst r)) + snd r) = snd r.
Proof.
  intros Hm He. unfold shr_fexp, shr.
  remember (fexp prec emax (Zdigits2 m + e) - e) as n eqn:Hn.
  destruct n as [|p|p]; cbn [fst snd]; [| |lia].
  - rewrite shr_record_of_loc_m.
    replace (e - e) with 0 by lia. rewrite Z.div_1_r.
    repeat split; lia.
  - rewrite iter_shr_1_m by (rewrite shr_record_of_loc_m; exact Hm).
    rewrite shr_record_of_loc_m.
    assert (Hp : 0 < 2 ^ Zpos p) by (apply Z.pow_pos_nonneg; lia).
    replace (e + Zpos p - e) with (Zpos p) by lia.
    split; [apply Z.div_pos; lia|].
    split; [lia|]. split; [reflexivity|].
    destruct (Z.eq_dec (m / 2 ^ Zpos p) 0) as [Hz|Hz].
    + rewrite Hz. cbn [Zdigits2].
      assert (Hd : Zdigits2 m <= Zpos p).
      { destruct (Z.eq_dec m 0) as [->|Hm0]; [cbn; lia|].
        apply Z.div_small_iff in Hz; [|lia].
        destruct Hz as [Hz|Hz]; [|lia].
        rewrite Zdigits2_log2 by lia.
        assert (Z.log2 m < Zpos p) by (apply Z.log2_lt_pow2; lia). lia. }
      rewrite fexp_unfold in Hn |- *. lia.
    + assert (Hq : 0 < m / 2 ^ Zpos p).
      { pose proof (Z.div_pos m (2 ^ Zpos p) Hm Hp). lia. }
      rewrite Zdigits2_div_pow2 by (lia || exact Hq).
      replace (Zdigits2 m - Zpos p + (e + Zpos p)) with (Zdigits2 m + e)
        by lia.
      lia.
Qed.

Lemma round_nearest_even_bounds (m : Z) (l : location) :
  m <= round_nearest_even m l <= m + 1.
Proof.
  destruct l as [|[| |]]; cbn; try lia. destruct (Z.even m); lia.
Qed.

Lemma binary_round_aux_valid (sx : bool) (mx ex : Z) (lx : location) :
  0 <= mx ->
  ex <= fexp prec emax (Zdigits2 mx + ex) ->
  valid (binary_round_aux prec emax sx mx ex lx) = true.
Proof.
  intros Hm He. unfold binary_round_aux.
  pose proof (shr_fexp_spec mx ex lx Hm He) as H1. cbv zeta in H1.
  destruct (shr_fexp prec emax mx ex lx) as [mrs1 e1]. cbn [fst snd] in H1.
  destruct H1 as [H1a [H1b [H1c H1d]]].
  pose proof (round_nearest_even_bounds (shr_m mrs1)
                (loc_of_shr_record mrs1)) as Hr.
  set (m2 := round_nearest_even (shr_m mrs1) (loc_of_shr_record mrs1)) in *.
  assert (Hm2 : 0 <= m2) by lia.
  assert (He2 : e1 <= fexp prec emax (Zdigits2 m2 + e1)).
  { rewrite <- H1d at 1. apply fexp_mono.
    pose proof (Zdigits2_mono (shr_m mrs1) m2 H1a ltac:(lia)). lia. }
  pose proof (shr_fexp_spec m2 e1 loc_Exact Hm2 He2) as H2. cbv zeta in H2.
  destruct (shr_fexp prec emax m2 e1 loc_Exact) as [mrs2 e2].
  cbn [fst snd] in H2. destruct H2 as [H2a [H2b [H2c H2d]]].
  destruct (shr_m mrs2) as [|p|p] eqn:Em; [reflexivity| |reflexivity].
  destruct (e2 <=? emax - prec) eqn:Ee; [|reflexivity].
  unfold valid. cbn [valid_binary]. unfold bounded, canonical_mantissa.
  cbn [Zdigits2] in H2d. rewrite H2d, Z.eqb_refl, Ee. reflexivity.
Qed.

(** The division core on two positive integers. *)
Lemma div_core_unfold (num den : Z) :
  0 < num -> 0 < den ->
  let e := Z.min (fexp prec emax (Zdigits2 num - Zdigits2 den)) 0 in
  SFdiv_core_binary prec emax num 0 den 0
  = ((num * 2 ^ (- e)) / den, e,
     new_location den ((num * 2 ^ (- e)) mod den)).
Proof.
  intros Hnum Hden e. unfold SFdiv_core_binary.
  rewrite !Z.add_0_r, !Z.sub_0_r. fold e.
  assert (He0 : e <= 0) by (subst e; lia).
  replace (match 0 - e with
           | Zpos _ => Z.shiftl num (0 - e)
           | 0 => num
           | Zneg _ => 0
           end) with (num * 2 ^ (- e)).
  - unfold Z.div, Z.modulo.
    destruct (Z.div_eucl (num * 2 ^ (- e)) den) as [q r]. reflexivity.
  - replace (0 - e) with (- e) by lia.
    destruct (- e) as [|p|p] eqn:E; [cbn; lia| |lia].
    symmetry. apply Z.shiftl_mul_pow2. lia.
Qed.

(** The quotient the division core hands to the rounding is long enough. *)
Lemma div_core_long_enough (num den : Z) :
  0 < num -> 0 < den ->
  let e := Z.min (fexp prec emax (Zdigits2 num - Zdigits2 den)) 0 in
  let q := (num * 2 ^ (- e)) / den in
  0 <= q /\ e <= fexp prec emax (Zdigits2 q + e).
Proof.
  intros Hnum Hden e q.
  assert (He0 : e <= 0) by (subst e; lia).
  set (m' := num * 2 ^ (- e)) in *.
  assert (Hp : 0 < 2 ^ (- e)) by (apply Z.pow_pos_nonneg; lia).
  assert (Hm'pos : 0 < m') by (subst m'; nia).
  pose proof (Z.div_mod m' den ltac:(lia)) as Hdm.
  pose proof (Z.mod_pos_bound m' den Hden) as Hr.
  fold q in Hdm. set (r := m' mod den) in *.
  assert (Hq : 0 <= q) by nia.
  split; [exact Hq|].
  pose proof (Zdigits2_bounds num Hnum) as Hbn.
  pose proof (Zdigits2_bounds den Hden) as Hbd.
  pose proof (Zdigits2_pos num Hnum) as Hd1.
  pose proof (Zdigits2_pos den Hden) as Hd2.
  set (d1 := Zdigits2 num) in *. set (d2 := Zdigits2 den) in *.
  assert (Hlow : 2 ^ (d1 - 1 - e) <= m').
  { subst m'. replace (d1 - 1 - e) with (d1 - 1 + - e) by lia.
    rewrite Z.pow_add_r by lia. nia. }
  destruct (Z.eq_dec q 0) as [Hq0|Hq0].
  - rewrite Hq0 in *. cbn [Zdigits2]. rewrite Z.add_0_l.
    assert (Hlt : 2 ^ (d1 - 1 - e) < 2 ^ d2) by lia.
    apply Z.pow_lt_mono_r_iff in Hlt; [|lia|lia].
    assert (Ee : e = Z.min (fexp prec emax (d1 - d2)) 0) by reflexivity.
    pose proof (fexp_unfold (d1 - d2)) as F1.
    pose proof (fexp_unfold e) as F2. lia.
  - assert (Hqpos : 0 < q) by lia.
    assert (Hdq : d1 - e - d2 <= Zdigits2 q).
    { rewrite Zdigits2_log2 by exact Hqpos.
      destruct (Z.le_gt_cases (d1 - 1 - e - d2) 0) as [Hk|Hk].
      - pose proof (Z.log2_nonneg q). lia.
      - assert (Hk2 : 2 ^ (d1 - 1 - e - d2) <= q).
        { assert (Hx : 2 ^ (d1 - 1 - e - d2) * 2 ^ d2 < (q + 1) * 2 ^ d2).
          { rewrite <- Z.pow_add_r by lia.
            replace (d1 - 1 - e - d2 + d2) with (d1 - 1 - e) by lia. nia. }
          assert (Hy : 2 ^ (d1 - 1 - e - d2) < q + 1) by nia. lia. }
        apply Z.log2_le_pow2 in Hk2; lia. }
    assert (Hf : fexp prec emax (d1 - d2) <= fexp prec emax (Zdigits2 q + e)).
    { apply fexp_mono. lia. }
    assert (Ee : e = Z.min (fexp prec emax (d1 - d2)) 0) by reflexivity.
    lia.
Qed.

Lemma round_frac_valid (sg : bool) (num den : Z) :
  0 <= num -> 0 < den -> valid (round_frac sg num den) = true.
Proof.
  intros Hnum Hden. unfold round_frac.
  destruct num as [|p|p]; [reflexivity| |lia].
  rewrite (div_core_unfold (Zpos p) den) by lia.
  pose proof (div_core_long_enough (Zpos p) den ltac:(lia) Hden) as [Hq He].
  apply binary_round_aux_valid; assumption.
Qed.

Lemma round_dec_valid (sg : bool) (s j : Z) :
  0 <= s -> valid (round_dec sg s j) = true.
Proof.
  intros Hs. unfold round_dec. destruct (0 <=? j) eqn:Hj.
  - apply Z.leb_le in Hj. apply round_frac_valid; [|lia].
    apply Z.mul_nonneg_nonneg; [exact Hs|]. apply Z.pow_nonneg. lia.
  - apply Z.leb_gt in Hj. apply round_frac_valid; [exact Hs|].
    apply Z.pow_pos_nonneg; lia.
Qed.

(** ** Binary64 rounding: an exactly representable value is kept *)

Lemma shr_1_double (m : Z) :
  0 <= m ->
  shr_1 (Build_shr_record (2 * m) false false) = Build_shr_record m false false.
Proof.
  intros H. destruct m as [|p|p]; [reflexivity|reflexivity|lia].
Qed.

Lemma iter_shr_1_exact (p : positive) :
  forall m : Z,
    0 <= m ->
    iter_pos shr_1 p (Build_shr_record (m * 2 ^ Zpos p) false false)
    = Build_shr_record m false false.
Proof.
  induction p as [p IH|p IH|]; intros m Hm; cbn [iter_pos].
  - assert (Hp : 0 < 2 ^ Zpos p) by (apply Z.pow_pos_nonneg; lia).
    replace (m * 2 ^ Zpos p~1) with (2 * (m * 2 ^ Zpos p * 2 ^ Zpos p)).
    + rewrite shr_1_double by nia. rewrite IH by nia. apply IH. exact Hm.
    + replace (Zpos p~1) with (1 + Zpos p + Zpos p) by lia.
      rewrite !Z.pow_add_r by lia. change (2 ^ 1) with 2. ring.
  - assert (Hp : 0 < 2 ^ Zpos p) by (apply Z.pow_pos_nonneg; lia).
    replace (m * 2 ^ Zpos p~0) with (m * 2 ^ Zpos p * 2 ^ Zpos p).
    + rewrite IH by nia. apply IH. exact Hm.
    + replace (Zpos p~0) with (Zpos p + Zpos p) by lia.
      rewrite !Z.pow_add_r by lia. ring.
  - change (2 ^ 1) with 2. rewrite Z.mul_comm. apply shr_1_double. exact Hm.
Qed.

Lemma Zdigits2_mul_pow2 (m n : Z) :
  0 < m -> 0 <= n -> Zdigits2 (m * 2 ^ n) = Zdigits2 m + n.
Proof.
  intros Hm Hn.
  assert (Hp : 0 < 2 ^ n) by (apply Z.pow_pos_nonneg; lia).
  rewrite !Zdigits2_log2 by nia.
  rewrite Z.log2_mul_pow2 by lia. lia.
Qed.

Lemma Zdigits2_mul_le (a c : Z) :
  0 < a -> 0 < c -> Zdigits2 (a * c) <= Zdigits2 a + Zdigits2 c.
Proof.
  intros Ha Hc.
  pose proof (Zdigits2_bounds a Ha) as [_ Hba].
  pose proof (Zdigits2_bounds c Hc) as [_ Hbc].
  pose proof (Zdigits2_pos a Ha). pose proof (Zdigits2_pos c Hc).
  assert (Hlt : a * c < 2 ^ (Zdigits2 a + Zdigits2 c)).
  { rewrite Z.pow_add_r by lia. nia. }
  rewrite (Zdigits2_log2 (a * c)) by nia.
  apply Z.log2_lt_pow2 in Hlt; [lia|nia].
Qed.

Lemma new_location_zero (den : Z) : new_location den 0 = loc_Exact.
Proof.
  unfold new_location. destruct (Z.even den); reflexivity.
Qed.

Lemma bounded_inv (m : positive) (e : Z) :
  bounded prec emax m e = true ->
  fexp prec emax (Zdigits2 (Zpos m) + e) = e /\ e <= emax - prec.
Proof.
  unfold bounded, canonical_mantissa. intros H.
  apply andb_true_iff in H. destruct H as [H1 H2].
  apply Z.eqb_eq in H1. apply Z.leb_le in H2. split; assumption.
Qed.

(** Rounding the integer [m * 2^n] at exponent [e - n] gives back the
    canonical pair [(m, e)]. *)
Lemma binary_round_aux_exact (sg : bool) (m : positive) (e n : Z) :
  bounded prec emax m e = true ->
  0 <= n ->
  binary_round_aux prec emax sg (Zpos m * 2 ^ n) (e - n) loc_Exact
  = S754_finite sg m e.
Proof.
  intros Hb Hn. destruct (bounded_inv m e Hb) as [Hc He].
  assert (Hshift : shr_fexp prec emax (Zpos m * 2 ^ n) (e - n) loc_Exact
                   = (Build_shr_record (Zpos m) false false, e)).
  { unfold shr_fexp. rewrite Zdigits2_mul_pow2 by lia.
    replace (Zdigits2 (Zpos m) + n + (e - n)) with (Zdigits2 (Zpos m) + e)
      by lia.
    rewrite Hc. replace (e - (e - n)) with n by lia.
    unfold shr. cbn [shr_record_of_loc].
    destruct n as [|p|p]; [|..|lia].
    - rewrite Z.mul_1_r, Z.sub_0_r. reflexivity.
    - rewrite iter_shr_1_exact by lia. f_equal. lia. }
  unfold binary_round_aux. rewrite Hshift.
  cbn [shr_m loc_of_shr_record round_nearest_even].
  unfold shr_fexp. rewrite Hc, Z.sub_diag. cbn [shr shr_record_of_loc shr_m].
  apply Z.leb_le in He. rewrite He. reflexivity.
Qed.

Lemma round_frac_exact (sg : bool) (m : positive) (e num den : Z) :
  bounded prec emax m e = true ->
  0 < num -> 0 < den ->
  exact_fraction m e num den ->
  round_frac sg num den = S754_finite sg m e.
Proof.
  intros Hb Hnum Hden Hx. unfold exact_fraction in Hx.
  destruct (bounded_inv m e Hb) as [Hc He].
  unfold round_frac. destruct num as [|p|p]; [lia| |lia].
  rewrite (div_core_unfold (Zpos p) den) by lia.
  set (e' := Z.min (fexp prec emax (Zdigits2 (Zpos p) - Zdigits2 den)) 0).
  assert (Ee' : e' = Z.min (fexp prec emax
                              (Zdigits2 (Zpos p) - Zdigits2 den)) 0)
    by reflexivity.
  assert (Hle : e' <= e).
  { destruct (Z.le_gt_cases 0 e) as [H0|H0]; [lia|].
    rewrite (Z.max_r 0 (- e)), (Z.max_l 0 e), Z.mul_1_r in Hx by lia.
    assert (Hd : Zdigits2 (Zpos p) - e <= Zdigits2 (Zpos m) + Zdigits2 den).
    { pose proof (Zdigits2_mul_pow2 (Zpos p) (- e) ltac:(lia) ltac:(lia))
        as E1.
      pose proof (Zdigits2_mul_le (Zpos m) den ltac:(lia) Hden) as E2.
      rewrite Hx in E1. lia. }
    pose proof (fexp_mono (Zdigits2 (Zpos p) - Zdigits2 den)
                  (Zdigits2 (Zpos m) + e) ltac:(lia)).
    lia. }
  assert (Hval : Zpos p * 2 ^ (- e') = Zpos m * 2 ^ (e - e') * den).
  { destruct (Z.le_gt_cases 0 e) as [H0|H0].
    - rewrite (Z.max_l 0 (- e)), (Z.max_r 0 e), Z.mul_1_r in Hx by lia.
      rewrite Hx. replace (e - e') with (e + - e') by lia.
      rewrite Z.pow_add_r by lia. ring.
    - rewrite (Z.max_r 0 (- e)), (Z.max_l 0 e), Z.mul_1_r in Hx by lia.
      replace (- e') with (- e + (e - e')) by lia.
      rewrite Z.pow_add_r by lia. rewrite Z.mul_assoc, Hx. ring. }
  rewrite Hval, Z.div_mul, Z.mod_mul, new_location_zero by lia.
  replace e' with (e - (e - e')) at 2 by lia.
  apply binary_round_aux_exact; [exact Hb|lia].
Qed.

(** ** Reading back the digits that were written *)

Lemma value_from_app (acc : Z) (l1 l2 : list Z) :
  value_from acc (l1 ++ l2) = value_from (value_from acc l1) l2.
Proof. apply fold_left_app. Qed.

Lemma value_from_zeros (n : nat) (acc : Z) :
  value_from acc (repeat 0 n) = acc * 10 ^ Z.of_nat n.
Proof.
  revert acc. induction n as [|n IH]; intros acc.
  - cbn. lia.
  - cbn [repeat value_from fold_left].
    fold (value_from (acc * 10 + 0) (repeat 0 n)).
    rewrite IH. rewrite Nat2Z.inj_succ, Z.pow_succ_r by lia. ring.
Qed.

Lemma digits_fuel_value (f : nat) :
  forall (n : Z) (acc : list Z),
    value_from 0 (digits_fuel f n acc) = value_from n acc.
Proof.
  induction f as [|f IH]; intros n acc; cbn [digits_fuel].
  - reflexivity.
  - destruct (n <? 10); [reflexivity|].
    rewrite IH. unfold value_from. cbn [fold_left]. f_equal.
    pose proof (Z.div_mod n 10 ltac:(lia)). lia.
Qed.

Lemma digits_value (n : Z) : value_from 0 (digits n) = n.
Proof. unfold digits. now rewrite digits_fuel_value. Qed.

Lemma digits_fuel_nonneg (f : nat) :
  forall (n : Z) (acc : list Z),
    0 <= n ->
    Forall (fun d => 0 <= d) acc ->
    Forall (fun d => 0 <= d) (digits_fuel f n acc).
Proof.
  induction f as [|f IH]; intros n acc Hn Hacc; cbn [digits_fuel].
  - now constructor.
  - destruct (n <? 10); [now constructor|].
    apply IH; [apply Z.div_pos; lia|].
    constructor; [|exact Hacc].
    pose proof (Z.mod_pos_bound n 10 ltac:(lia)). lia.
Qed.

Lemma digits_are_digits (n : Z) : 0 <= n -> Forall is_digit (digits n).
Proof.
  intros Hn.
  pose proof (digits_le9 n) as H9.
  pose proof (digits_fuel_nonneg (Z.to_nat (Z.log2 n)) n [] Hn
                ltac:(constructor)) as H0.
  fold (digits n) in H0.
  rewrite Forall_forall in *. intros d Hd.
  split; [apply H0|apply H9]; exact Hd.
Qed.

Lemma digits_fuel_nonempty (f : nat) :
  forall (n : Z) (acc : list Z), digits_fuel f n acc <> [].
Proof.
  induction f as [|f IH]; intros n acc; cbn [digits_fuel].
  - discriminate.
  - destruct (n <? 10); [discriminate|apply IH].
Qed.

Lemma digits_nonempty (n : Z) : digits n <> [].
Proof. apply digits_fuel_nonempty. Qed.

Lemma digit_of_digit_char (d : Z) :
  is_digit d -> digit_of (digit_char d) = Some d.
Proof.
  intros [H0 H9].
  assert (H : d = 0 \/ d = 1 \/ d = 2 \/ d = 3 \/ d = 4 \/ d = 5
              \/ d = 6 \/ d = 7 \/ d = 8 \/ d = 9) by lia.
  repeat (destruct H as [->|H]; [reflexivity|]). subst d. reflexivity.
Qed.

Lemma scan_digits_chars (ds : list Z) :
  forall (rest : list ascii) (acc cnt : Z),
    Forall is_digit ds ->
    scan_digits (map digit_char ds ++ rest) acc cnt
    = scan_digits rest (value_from acc ds) (cnt + Z.of_nat (length ds)).
Proof.
  induction ds as [|d ds IH]; intros rest acc cnt Hds.
  - cbn. now rewrite Z.add_0_r.
  - inversion Hds as [|? ? Hd Hds']; subst.
    cbn [map app scan_digits]. rewrite (digit_of_digit_char d Hd).
    rewrite (IH rest _ _ Hds'). cbn [value_from fold_left length].
    f_equal. lia.
Qed.

Lemma scan_digits_stop (l : list ascii) (acc cnt : Z) :
  no_digit_head l = true -> scan_digits l acc cnt = (acc, cnt, l).
Proof.
  destruct l as [|c l]; [reflexivity|].
  cbn. destruct (digit_of c); [discriminate|reflexivity].
Qed.

Lemma zeros_chars (n : Z) : zeros n = map digit_char (repeat 0 (Z.to_nat n)).
Proof.
  unfold zeros. rewrite map_repeat. reflexivity.
Qed.

Lemma Forall_repeat_zero (n : nat) : Forall is_digit (repeat 0 n).
Proof.
  induction n as [|n IH]; constructor; [unfold is_digit; lia|exact IH].
Qed.

Lemma digit_char_not_I (d : Z) :
  is_digit d -> Ascii.eqb "I" (digit_char d) = false.
Proof.
  intros [H0 H9]. destruct (digit_char_cases d H9) as [k [Hk ->]].
  ten_cases k Hk; reflexivity.
Qed.

Lemma starts_with_Infinity_digit (d : Z) (l : list ascii) :
  is_digit d ->
  starts_with (list_ascii_of_string "Infinity") (digit_char d :: l) = false.
Proof.
  intros Hd.
  change (list_ascii_of_string "Infinity")
    with ("I"%char :: list_ascii_of_string "nfinity").
  cbn [starts_with]. now rewrite (digit_char_not_I d Hd).
Qed.

(** A literal without a fraction: digits, then a tail that starts with
    neither a digit nor a point. *)
Lemma parse_unsigned_integer (sg : bool) (d : Z) (ds : list Z)
    (tail : list ascii) :
  Forall is_digit (d :: ds) ->
  no_digit_head tail = true ->
  no_dot_head tail = true ->
  parse_unsigned sg (map digit_char (d :: ds) ++ tail)
  = round_dec sg (value_from 0 (d :: ds)) (parse_exponent tail).
Proof.
  intros Hds Ht Hdot. unfold parse_unsigned.
  assert (Hd : is_digit d) by (inversion Hds; assumption).
  cbn [map app]. rewrite (starts_with_Infinity_digit d _ Hd).
  change (digit_char d :: map digit_char ds ++ tail)%list
    with (map digit_char (d :: ds) ++ tail)%list.
  rewrite (scan_digits_chars (d :: ds) tail 0 0 Hds).
  rewrite (scan_digits_stop tail _ _ Ht).
  assert (Hm : match tail with
               | "."%char :: r => scan_digits r (value_from 0 (d :: ds)) 0
               | _ => (value_from 0 (d :: ds), 0, tail)
               end = (value_from 0 (d :: ds), 0, tail)).
  { destruct tail as [|c tail]; [reflexivity|].
    cbn in Hdot. destruct (Ascii.eqb_spec c "."); [discriminate|].
    destruct c as [[|] [|] [|] [|] [|] [|] [|] [|]];
      try reflexivity; congruence. }
  rewrite Hm.
  replace (0 + Z.of_nat (length (d :: ds)) + 0 =? 0) with false
    by (symmetry; apply Z.eqb_neq; cbn [length]; lia).
  now rewrite Z.sub_0_r.
Qed.

(** A literal with a fraction: digits, a point, digits, then a tail that
    does not start with a digit. *)
Lemma parse_unsigned_fraction (sg : bool) (d : Z) (ds fs : list Z)
    (tail : list ascii) :
  Forall is_digit (d :: ds) ->
  Forall is_digit fs ->
  no_digit_head tail = true ->
  parse_unsigned sg
    (map digit_char (d :: ds) ++ "."%char :: map digit_char fs ++ tail)
  = round_dec sg (value_from 0 ((d :: ds) ++ fs))
      (parse_exponent tail - Z.of_nat (length fs)).
Proof.
  intros Hds Hfs Ht. unfold parse_unsigned.
  assert (Hd : is_digit d) by (inversion Hds; assumption).
  cbn [map app]. rewrite (starts_with_Infinity_digit d _ Hd).
  change (digit_char d :: map digit_char ds ++ ?t)%list
    with (map digit_char (d :: ds) ++ t)%list.
  rewrite (scan_digits_chars (d :: ds) _ 0 0 Hds).
  rewrite (scan_digits_stop ("."%char :: _)) by reflexivity.
  cbv iota beta.
  rewrite (scan_digits_chars fs tail _ 0 Hfs).
  rewrite (scan_digits_stop tail _ _ Ht).
  replace (0 + Z.of_nat (length (d :: ds)) + (0 + Z.of_nat (length fs)) =? 0)
    with false
    by (symmetry; apply Z.eqb_neq; cbn [length]; lia).
  change (d :: ds ++ fs)%list with ((d :: ds) ++ fs)%list.
  rewrite value_from_app. reflexivity.
Qed.

Lemma parse_exponent_chars (e : Z) :
  parse_exponent
    ("e"%char :: (if e <? 0 then "-"%char else "+"%char)
       :: digit_chars (Z.abs e)) = e.
Proof.
  unfold parse_exponent.
  change (Ascii.eqb "e" "e" || Ascii.eqb "e" "E")%bool with true.
  cbv iota.
  assert (Hscan : scan_digits (digit_chars (Z.abs e)) 0 0
                  = (Z.abs e, Z.of_nat (length (digits (Z.abs e))), [])).
  { unfold digit_chars.
    rewrite <- (app_nil_r (map digit_char (digits (Z.abs e)))).
    rewrite scan_digits_chars by (apply digits_are_digits; lia).
    cbn [scan_digits]. now rewrite digits_value. }
  assert (Hlen : (Z.of_nat (length (digits (Z.abs e))) =? 0) = false).
  { apply Z.eqb_neq. pose proof (digits_nonempty (Z.abs e)).
    destruct (digits (Z.abs e)); [congruence|cbn [length]; lia]. }
  destruct (e <? 0) eqn:He; cbv iota beta; rewrite Hscan, Hlen.
  - apply Z.ltb_lt in He. lia.
  - apply Z.ltb_ge in He. lia.
Qed.

Lemma round_dec_scaled (sg : bool) (s j : Z) :
  0 <= j -> round_dec sg (s * 10 ^ j) 0 = round_dec sg s j.
Proof.
  intros Hj. unfold round_dec.
  apply Z.leb_le in Hj. rewrite Hj. cbn [Z.leb Z.compare].
  now rewrite Z.pow_0_r, Z.mul_1_r.
Qed.

Lemma Forall_firstn_skipn (P : Z -> Prop) (n : nat) (l : list Z) :
  Forall P l -> Forall P (firstn n l) /\ Forall P (skipn n l).
Proof.
  intros H. apply Forall_app. now rewrite firstn_skipn.
Qed.

(** Reading the text written for the digits of [s] and the exponent [j]
    gives the Number for [s * 10^j]. *)
Lemma parse_render (sg : bool) (s j : Z) :
  0 <= s ->
  parse_unsigned sg
    (render (digit_chars s) (j + Z.of_nat (length (digit_chars s))))
  = round_dec sg s j.
Proof.
  intros Hs. unfold digit_chars.
  pose proof (digits_are_digits s Hs) as Hds.
  pose proof (digits_nonempty s) as Hne.
  pose proof (digits_value s) as Hv.
  destruct (digits s) as [|d ds]; [congruence|]. clear Hne.
  rewrite length_map.
  set (k := Z.of_nat (length (d :: ds))).
  assert (Hk : k = Z.of_nat (length ds) + 1) by (subst k; cbn [length]; lia).
  set (n := j + k). unfold render. rewrite length_map. fold k.
  destruct ((k <=? n) && (n <=? 21)) eqn:C1.
  { apply andb_true_iff in C1. destruct C1 as [C1 _]. apply Z.leb_le in C1.
    rewrite zeros_chars, <- map_app.
    rewrite <- (app_nil_r (map digit_char _)).
    change ((d :: ds) ++ repeat 0 (Z.to_nat (n - k)))%list
      with (d :: (ds ++ repeat 0 (Z.to_nat (n - k))))%list.
    rewrite parse_unsigned_integer; try reflexivity.
    - change (d :: (ds ++ repeat 0 (Z.to_nat (n - k))))%list
        with ((d :: ds) ++ repeat 0 (Z.to_nat (n - k)))%list.
      rewrite value_from_app, Hv, value_from_zeros.
      rewrite Z2Nat.id by lia. cbn [parse_exponent].
      rewrite round_dec_scaled by lia. f_equal. lia.
    - change (d :: (ds ++ repeat 0 (Z.to_nat (n - k))))%list
        with ((d :: ds) ++ repeat 0 (Z.to_nat (n - k)))%list.
      apply Forall_app. split; [exact Hds|apply Forall_repeat_zero]. }
  destruct ((0 <? n) && (n <=? 21)) eqn:C2.
  { apply andb_true_iff in C2. destruct C2 as [C2 C2'].
    apply Z.ltb_lt in C2. apply Z.leb_le in C2'.
    assert (Hnk : n < k).
    { apply andb_false_iff in C1. destruct C1 as [C1|C1].
      - apply Z.leb_gt in C1. exact C1.
      - apply Z.leb_gt in C1. lia. }
    destruct (Z.to_nat n) as [|n'] eqn:En; [lia|].
    rewrite firstn_map, skipn_map. cbn [firstn skipn].
    rewrite <- (app_nil_r (map digit_char (skipn n' ds))).
    rewrite parse_unsigned_fraction; try reflexivity.
    - change ((d :: firstn n' ds) ++ skipn n' ds)%list
        with (d :: (firstn n' ds ++ skipn n' ds))%list.
      rewrite firstn_skipn, Hv. cbn [parse_exponent].
      f_equal. rewrite length_skipn. lia.
    - inversion Hds as [|? ? Hd Hds']; subst.
      constructor; [exact Hd|].
      exact (proj1 (Forall_firstn_skipn _ n' ds Hds')).
    - inversion Hds as [|? ? Hd Hds']; subst.
      exact (proj2 (Forall_firstn_skipn _ n' ds Hds')). }
  destruct ((-6 <? n) && (n <=? 0)) eqn:C3.
  { apply andb_true_iff in C3. destruct C3 as [C3 C3'].
    apply Z.ltb_lt in C3. apply Z.leb_le in C3'.
    rewrite zeros_chars, <- map_app.
    rewrite <- (app_nil_r (map digit_char (_ ++ _))).
    change ("0"%char :: "."%char :: ?t)%list
      with (map digit_char [0] ++ "."%char :: t)%list.
    rewrite parse_unsigned_fraction; try reflexivity.
    - rewrite value_from_app, value_from_app.
      change (value_from 0 [0]) with 0.
      rewrite value_from_zeros, Z.mul_0_l, Hv. cbn [parse_exponent].
      f_equal. rewrite length_app, repeat_length. lia.
    - constructor; [unfold is_digit; lia|constructor].
    - apply Forall_app. split; [apply Forall_repeat_zero|exact Hds]. }
  cbv zeta.
  assert (Hd : is_digit d) by (inversion Hds; assumption).
  destruct ds as [|d' ds].
  - cbn [map].
    change (digit_char d :: ?t)%list with (map digit_char [d] ++ t)%list.
    rewrite parse_unsigned_integer; try reflexivity.
    + rewrite parse_exponent_chars, Hv. f_equal. cbn [length] in Hk. lia.
    + exact Hds.
  - cbn [map].
    change (digit_char d :: "."%char
              :: (digit_char d' :: map digit_char ds) ++ ?u)%list
      with (map digit_char [d]
              ++ "."%char :: map digit_char (d' :: ds) ++ u)%list.
    rewrite parse_unsigned_fraction; try reflexivity.
    + rewrite parse_exponent_chars.
      change ([d] ++ d' :: ds)%list with (d :: d' :: ds).
      rewrite Hv. f_equal. lia.
    + constructor; [exact Hd|constructor].
    + inversion Hds; assumption.
Qed.

(** ** The decimal that is printed reads back as the value *)

Lemma strip_zeros_spec (f : nat) :
  forall s j : Z,
    0 <= s ->
    let c := strip_zeros f s j in
    0 <= fst c /\ j <= snd c /\ s = fst c * 10 ^ (snd c - j)
    /\ (0 < s -> 0 < fst c).
Proof.
  induction f as [|f IH]; intros s j Hs; cbn [strip_zeros].
  - cbn [fst snd]. rewrite Z.sub_diag, Z.pow_0_r. repeat split; lia.
  - destruct ((s mod 10 =? 0) && negb (s =? 0)) eqn:C.
    + apply andb_true_iff in C. destruct C as [C1 C2].
      apply Z.eqb_eq in C1. apply negb_true_iff, Z.eqb_neq in C2.
      assert (Hdiv : s = 10 * (s / 10)).
      { pose proof (Z.div_mod s 10 ltac:(lia)). lia. }
      assert (Hq : 0 < s / 10) by lia.
      destruct (IH (s / 10) (j + 1) ltac:(lia)) as [H1 [H2 [H3 H4]]].
      split; [exact H1|]. split; [lia|]. split; [|intros _; apply H4; exact Hq].
      rewrite Hdiv at 1. rewrite H3 at 1.
      replace (snd (strip_zeros f (s / 10) (j + 1)) - j)
        with (1 + (snd (strip_zeros f (s / 10) (j + 1)) - (j + 1))) by lia.
      rewrite Z.pow_add_r by lia. change (10 ^ 1) with 10. ring.
    + cbn [fst snd]. rewrite Z.sub_diag, Z.pow_0_r. repeat split; lia.
Qed.

Lemma normalize_spec (s j : Z) :
  0 <= s ->
  0 <= fst (normalize s j) /\ j <= snd (normalize s j)
  /\ s = fst (normalize s j) * 10 ^ (snd (normalize s j) - j)
  /\ (0 < s -> 0 < fst (normalize s j)).
Proof.
  intros Hs. unfold normalize. apply (strip_zeros_spec _ s j Hs).
Qed.

Lemma pow10_split (n : Z) : 0 <= n -> 10 ^ n = 2 ^ n * 5 ^ n.
Proof.
  intros Hn. change 10 with (2 * 5). apply Z.pow_mul_l.
Qed.

(** The exact expansion of a binary64 value reads back as that value. *)
Lemma exact_decimal_reads_back (sg : bool) (m : positive) (e : Z) :
  bounded prec emax m e = true ->
  0 <= fst (exact_decimal m e)
  /\ round_dec sg (fst (exact_decimal m e)) (snd (exact_decimal m e))
     = S754_finite sg m e.
Proof.
  intros Hb. unfold exact_decimal.
  destruct (0 <=? e) eqn:He.
  - apply Z.leb_le in He.
    assert (Hp : 0 < 2 ^ e) by (apply Z.pow_pos_nonneg; lia).
    destruct (normalize_spec (Zpos m * 2 ^ e) 0 ltac:(nia))
      as [H1 [H2 [H3 H4]]].
    set (c := normalize (Zpos m * 2 ^ e) 0) in *.
    split; [exact H1|].
    unfold round_dec. apply Z.leb_le in H2. rewrite H2.
    rewrite Z.sub_0_r in H3. rewrite <- H3.
    apply round_frac_exact; [exact Hb|nia|lia|].
    unfold exact_fraction.
    rewrite (Z.max_l 0 (- e)), (Z.max_r 0 e) by lia. cbn [Z.pow]. lia.
  - apply Z.leb_gt in He.
    assert (Hp5 : 0 < 5 ^ (- e)) by (apply Z.pow_pos_nonneg; lia).
    assert (Hp2 : 0 < 2 ^ (- e)) by (apply Z.pow_pos_nonneg; lia).
    destruct (normalize_spec (Zpos m * 5 ^ (- e)) e ltac:(nia))
      as [H1 [H2 [H3 H4]]].
    set (c := normalize (Zpos m * 5 ^ (- e)) e) in *.
    assert (Hpos : 0 < fst c) by (apply H4; nia).
    split; [exact H1|].
    unfold round_dec. destruct (0 <=? snd c) eqn:Hj.
    + apply Z.leb_le in Hj.
      assert (Hpj : 0 < 10 ^ snd c) by (apply Z.pow_pos_nonneg; lia).
      apply round_frac_exact; [exact Hb|nia|lia|].
      unfold exact_fraction.
      rewrite (Z.max_r 0 (- e)), (Z.max_l 0 e) by lia.
      rewrite Z.pow_0_r, !Z.mul_1_r.
      replace (snd c - e) with (snd c + - e) in H3 by lia.
      rewrite Z.pow_add_r, (pow10_split (- e)) in H3 by lia.
      apply (Z.mul_reg_r _ _ (5 ^ (- e))); [lia|].
      rewrite H3. ring.
    + apply Z.leb_gt in Hj.
      assert (Hpj : 0 < 10 ^ (- snd c)) by (apply Z.pow_pos_nonneg; lia).
      apply round_frac_exact; [exact Hb|lia|lia|].
      unfold exact_fraction.
      rewrite (Z.max_r 0 (- e)), (Z.max_l 0 e) by lia.
      rewrite Z.pow_0_r, !Z.mul_1_r.
      apply (Z.mul_reg_r _ _ (5 ^ (- e))); [lia|].
      assert (Hsplit : 10 ^ (- e) = 10 ^ (snd c - e) * 10 ^ (- snd c)).
      { rewrite <- Z.pow_add_r by lia. f_equal. lia. }
      rewrite (pow10_split (- e)) in Hsplit by lia.
      transitivity (fst c * (2 ^ (- e) * 5 ^ (- e))); [ring|].
      rewrite Hsplit.
      transitivity (fst c * 10 ^ (snd c - e) * 10 ^ (- snd c)); [ring|].
      rewrite <- H3. ring.
Qed.

Lemma same_value_eq (x y : number) : same_value x y = true -> x = y.
Proof.
  destruct x as [a|a| |a m e], y as [c|c| |c m' e']; cbn;
    try discriminate; try reflexivity.
  - intros H. apply Bool.eqb_prop in H. now subst.
  - intros H. apply Bool.eqb_prop in H. now subst.
  - intros H. apply andb_true_iff in H. destruct H as [H He].
    apply andb_true_iff in H. destruct H as [Ha Hm].
    apply Bool.eqb_prop in Ha. apply Pos.eqb_eq in Hm. apply Z.eqb_eq in He.
    now subst.
Qed.

Lemma scaled_positive (m : positive) (e p : Z) :
  0 < fst (scaled m e p) /\ 0 < snd (scaled m e p).
Proof.
  unfold scaled.
  destruct (0 <=? e) eqn:He; destruct (0 <=? p) eqn:Hp; cbn [fst snd];
    try apply Z.leb_le in He; try apply Z.leb_gt in He;
    try apply Z.leb_le in Hp; try apply Z.leb_gt in Hp.
  - pose proof (Z.pow_pos_nonneg 2 e ltac:(lia) He).
    pose proof (Z.pow_pos_nonneg 10 p ltac:(lia) Hp). nia.
  - pose proof (Z.pow_pos_nonneg 2 e ltac:(lia) He).
    pose proof (Z.pow_pos_nonneg 10 (- p) ltac:(lia) ltac:(lia)). nia.
  - pose proof (Z.pow_pos_nonneg 2 (- e) ltac:(lia) ltac:(lia)).
    pose proof (Z.pow_pos_nonneg 10 p ltac:(lia) Hp). nia.
  - pose proof (Z.pow_pos_nonneg 2 (- e) ltac:(lia) ltac:(lia)).
    pose proof (Z.pow_pos_nonneg 10 (- p) ltac:(lia) ltac:(lia)). nia.
Qed.

Lemma candidate_reads_back (m : positive) (e n0 k : Z) (c : Z * Z) :
  candidate m e n0 k = Some c ->
  0 <= fst c /\ reads_back m e c = true.
Proof.
  unfold candidate.
  pose proof (scaled_positive m e (k - n0)) as [HP HQ].
  destruct (scaled m e (k - n0)) as [P Q]. cbn [fst snd] in HP, HQ.
  assert (Hq : 0 <= P / Q) by (apply Z.div_pos; lia).
  pose proof (normalize_spec (P / Q) (n0 - k) Hq) as [Hlo _].
  pose proof (normalize_spec (P / Q + 1) (n0 - k) ltac:(lia)) as [Hhi _].
  destruct (reads_back m e (normalize (P / Q) (n0 - k))) eqn:Rlo;
    destruct (reads_back m e (normalize (P / Q + 1) (n0 - k))) eqn:Rhi.
  - destruct (2 * (P mod Q) ?= Q).
    + destruct (Z.even (P / Q)); intros [= <-]; split; assumption.
    + intros [= <-]; split; assumption.
    + intros [= <-]; split; assumption.
  - intros [= <-]; split; assumption.
  - intros [= <-]; split; assumption.
  - discriminate.
Qed.

Lemma shortest_reads_back (f : nat) (m : positive) (e n0 : Z) :
  forall (k : Z) (c : Z * Z),
    shortest f m e n0 k = Some c ->
    0 <= fst c /\ reads_back m e c = true.
Proof.
  induction f as [|f IH]; intros k c; cbn [shortest]; [discriminate|].
  destruct (candidate m e n0 k) as [c'|] eqn:Hc.
  - intros [= <-]. exact (candidate_reads_back m e n0 k c' Hc).
  - apply IH.
Qed.

Lemma shortest_decimal_reads_back (m : positive) (e : Z) :
  bounded prec emax m e = true ->
  0 <= fst (shortest_decimal m e)
  /\ round_dec false (fst (shortest_decimal m e)) (snd (shortest_decimal m e))
     = S754_finite false m e.
Proof.
  intros Hb. unfold shortest_decimal.
  destruct (shortest 17 m e (decimal_exponent m e) 1) as [c|] eqn:Hs.
  - destruct (shortest_reads_back _ _ _ _ _ _ Hs) as [H0 Hr].
    split; [exact H0|]. apply same_value_eq. exact Hr.
  - apply exact_decimal_reads_back. exact Hb.
Qed.

Lemma binary_round_aux_sign (m e : Z) (l : location) :
  binary_round_aux prec emax true m e l
  = SFopp (binary_round_aux prec emax false m e l).
Proof.
  unfold binary_round_aux.
  destruct (shr_fexp prec emax m e l) as [mrs1 e1].
  destruct (shr_fexp prec emax _ e1 loc_Exact) as [mrs2 e2].
  destruct (shr_m mrs2); [reflexivity| |reflexivity].
  destruct (e2 <=? emax - prec); reflexivity.
Qed.

Lemma round_dec_sign (s j : Z) :
  round_dec true s j = SFopp (round_dec false s j).
Proof.
  assert (H : forall num den,
             round_frac true num den = SFopp (round_frac false num den)).
  { intros num den. unfold round_frac.
    destruct num; [reflexivity| |];
      destruct (SFdiv_core_binary prec emax _ 0 den 0) as [[q e] l];
      apply binary_round_aux_sign. }
  unfold round_dec. destruct (0 <=? j); apply H.
Qed.

Lemma render_head (s n : Z) :
  0 <= s ->
  exists (d : Z) (tl : list ascii),
    is_digit d /\ render (digit_chars s) n = digit_char d :: tl.
Proof.
  intros Hs. unfold digit_chars.
  pose proof (digits_are_digits s Hs) as Hds.
  pose proof (digits_nonempty s) as Hne.
  destruct (digits s) as [|d ds]; [congruence|].
  assert (Hd : is_digit d) by (inversion Hds; assumption).
  unfold render. cbn [map].
  destruct ((Z.of_nat (length (digit_char d :: map digit_char ds)) <=? n)
            && (n <=? 21)).
  { eexists d, _. split; [exact Hd|reflexivity]. }
  destruct ((0 <? n) && (n <=? 21)) eqn:C2.
  { apply andb_true_iff in C2. destruct C2 as [C2 _]. apply Z.ltb_lt in C2.
    destruct (Z.to_nat n) as [|n'] eqn:En; [lia|].
    eexists d, _. split; [exact Hd|reflexivity]. }
  destruct ((-6 <? n) && (n <=? 0)).
  { exists 0. eexists. split; [unfold is_digit; lia|reflexivity]. }
  cbv zeta. destruct (map digit_char ds);
    eexists d, _; (split; [exact Hd|reflexivity]).
Qed.

Lemma parse_chars_digit_head (d : Z) (tl : list ascii) :
  is_digit d ->
  parse_chars (digit_char d :: tl) = parse_unsigned false (digit_char d :: tl).
Proof.
  intros [H0 H9]. destruct (digit_char_cases d H9) as [k [Hk ->]].
  ten_cases k Hk; destruct tl as [|c1 [|c2 l3]]; reflexivity.
Qed.

Lemma parse_chars_minus (l : list ascii) :
  parse_chars ("-"%char :: l) = parse_unsigned true l.
Proof.
  destruct l as [|c1 [|c2 l3]]; reflexivity.
Qed.

(** [parseFloat(String(x))] is [x], with [-0] read back as [+0]. *)
Lemma parse_chars_to_chars (x : number) :
  valid x = true -> parse_chars (to_chars x) = unsigned_zero x.
Proof.
  intros Hx. destruct x as [s|[|]| |[|] m e]; try reflexivity.
  - cbn [to_chars unsigned_zero]. rewrite parse_chars_minus.
    destruct (shortest_decimal_reads_back m e Hx) as [H0 Hr].
    unfold render_decimal. rewrite parse_render by exact H0.
    rewrite round_dec_sign, Hr. reflexivity.
  - cbn [to_chars unsigned_zero].
    destruct (shortest_decimal_reads_back m e Hx) as [H0 Hr].
    unfold render_decimal.
    destruct (render_head (fst (shortest_decimal m e))
                (snd (shortest_decimal m e)
                 + Z.of_nat (length (digit_chars (fst (shortest_decimal m e)))))
                H0) as [d [tl [Hd Hhead]]].
    rewrite Hhead, (parse_chars_digit_head d tl Hd), <- Hhead.
    rewrite parse_render by exact H0. exact Hr.
Qed.

Lemma parseFloat_toString (x : number) :
  valid x = true -> parseFloat (toString x) = unsigned_zero x.
Proof.
  intros Hx. unfold parseFloat, toString.
  rewrite list_ascii_of_string_of_list_ascii.
  apply parse_chars_to_chars. exact Hx.
Qed.

(** ** [parseFloat] yields binary64 values *)

Lemma digit_of_nonneg (c : ascii) (d : Z) : digit_of c = Some d -> 0 <= d.
Proof.
  unfold digit_of.
  destruct ((48 <=? Z.of_nat (nat_of_ascii c))
            && (Z.of_nat (nat_of_ascii c) <=? 57)) eqn:C; [|discriminate].
  apply andb_true_iff in C. destruct C as [C _]. apply Z.leb_le in C.
  intros [= <-]. lia.
Qed.

Lemma scan_digits_nonneg (l : list ascii) :
  forall acc cnt : Z,
    0 <= acc -> 0 <= fst (fst (scan_digits l acc cnt)).
Proof.
  induction l as [|c l IH]; intros acc cnt Hacc; cbn [scan_digits].
  - exact Hacc.
  - destruct (digit_of c) as [d|] eqn:Hd; [|exact Hacc].
    apply IH. pose proof (digit_of_nonneg c d Hd). lia.
Qed.

Lemma parse_unsigned_valid (sg : bool) (l : list ascii) :
  valid (parse_unsigned sg l) = true.
Proof.
  unfold parse_unsigned.
  destruct (starts_with (list_ascii_of_string "Infinity") l); [reflexivity|].
  pose proof (scan_digits_nonneg l 0 0 ltac:(lia)) as Hip.
  destruct (scan_digits l 0 0) as [[ip ni] r1]. cbn [fst] in Hip.
  assert (Hm : 0 <= fst (fst (match r1 with
                              | "."%char :: r => scan_digits r ip 0
                              | _ => (ip, 0, r1)
                              end))).
  { destruct r1 as [|c r]; [exact Hip|].
    destruct (Ascii.eqb_spec c ".") as [->|Hc].
    - apply scan_digits_nonneg. exact Hip.
    - destruct c as [[|] [|] [|] [|] [|] [|] [|] [|]];
        try exact Hip; congruence. }
  destruct (match r1 with
            | "."%char :: r => scan_digits r ip 0
            | _ => (ip, 0, r1)
            end) as [[m nf] r2].
  cbn [fst] in Hm.
  destruct (ni + nf =? 0); [reflexivity|].
  apply round_dec_valid. exact Hm.
Qed.

Lemma parse_chars_valid (l : list ascii) : valid (parse_chars l) = true.
Proof.
  unfold parse_chars. destruct (skip_ws l) as [|c r].
  - apply parse_unsigned_valid.
  - destruct c as [[|] [|] [|] [|] [|] [|] [|] [|]];
      apply parse_unsigned_valid.
Qed.

Lemma parseFloat_valid (s : string) : valid (parseFloat s) = true.
Proof. apply parse_chars_valid. Qed.

Lemma neg_valid (x : number) : valid (neg x) = valid x.
Proof. destruct x; reflexivity. Qed.

Lemma unsigned_zero_valid (x : number) : valid (unsigned_zero x) = valid x.
Proof. destruct x; reflexivity. Qed.

Lemma num_eq_refl (x : number) : x <> NaN -> num_eq x x = true.
Proof.
  intros Hx. destruct x as [s|[|]| |[|] m e]; try reflexivity.
  - exfalso. apply Hx. reflexivity.
  - unfold num_eq, SFeqb. cbn [SFcompare].
    now rewrite Z.compare_refl, Pos.compare_cont_refl.
  - unfold num_eq, SFeqb. cbn [SFcompare].
    now rewrite Z.compare_refl, Pos.compare_cont_refl.
Qed.

(** ** The sign key *)

Lemma neg_twice_read_back (v : number) :
  v <> NaN ->
  num_eq (unsigned_zero (neg (unsigned_zero (neg v)))) v = true.
Proof.
  intros Hv. destruct v as [s|s| |s m e].
  - reflexivity.
  - unfold neg. cbn [SFopp unsigned_zero]. rewrite negb_involutive.
    apply num_eq_refl. discriminate.
  - exfalso. apply Hv. reflexivity.
  - unfold neg. cbn [SFopp unsigned_zero]. rewrite negb_involutive.
    apply num_eq_refl. discriminate.
Qed.

(** C8. Pressing the sign key twice gives a display with the numeric value
    of the original display, whenever the original display parses to a
    number; and on the display "0" the sign key leaves "0". *)
Theorem C8_toggleSign_twice (st : state)
    (Hnum : parseFloat (display st) <> NaN) :
  num_eq (parseFloat (display (toggleSign (toggleSign st))))
         (parseFloat (display st)) = true
  /\ display (toggleSign (setDisplay "0" st)) = "0".
Proof.
  split; [|reflexivity].
  unfold toggleSign. cbn [display setDisplay].
  set (v := parseFloat (display st)) in *.
  assert (Hv : valid v = true) by apply parseFloat_valid.
  rewrite (parseFloat_toString (neg v)) by (now rewrite neg_valid).
  rewrite parseFloat_toString.
  - apply neg_twice_read_back. exact Hnum.
  - now rewrite neg_valid, unsigned_zero_valid, neg_valid.
Qed.

Lemma C8_witness :
  num_eq (parseFloat (display (toggleSign (toggleSign
            (run initial [InputDigit "1"; InputDot; InputDigit "5"])))))
         (parseFloat "1.5") = true
  /\ display (toggleSign (setDisplay "0"
                (run initial [InputDigit "1"; InputDot; InputDigit "5"])))
     = "0".
Proof.
  apply (C8_toggleSign_twice
           (run initial [InputDigit "1"; InputDot; InputDigit "5"])).
  vm_compute. discriminate.
Defined.

(** * Further properties of the engine *)

(** ** The arithmetic operators yield binary64 values *)

Lemma Zdigits2_mul_ge (a c : Z) :
  0 < a -> 0 < c -> Zdigits2 a + Zdigits2 c - 1 <= Zdigits2 (a * c).
Proof.
  intros Ha Hc.
  pose proof (Zdigits2_bounds a Ha) as [Hba _].
  pose proof (Zdigits2_bounds c Hc) as [Hbc _].
  pose proof (Zdigits2_pos a Ha). pose proof (Zdigits2_pos c Hc).
  assert (Hle : 2 ^ (Zdigits2 a - 1 + (Zdigits2 c - 1)) <= a * c).
  { rewrite Z.pow_add_r by lia.
    assert (0 < 2 ^ (Zdigits2 a - 1)) by (apply Z.pow_pos_nonneg; lia).
    assert (0 < 2 ^ (Zdigits2 c - 1)) by (apply Z.pow_pos_nonneg; lia).
    nia. }
  rewrite (Zdigits2_log2 (a * c)) by nia.
  apply Z.log2_le_pow2 in Hle; [lia|nia].
Qed.

Lemma iter_xO_pow (m d : positive) :
  Zpos (Pos.iter xO m d) = Zpos m * 2 ^ Zpos d.
Proof.
  induction d as [|d IH] using Pos.peano_ind.
  - cbn. lia.
  - rewrite Pos.iter_succ, Pos2Z.inj_xO, IH, Pos2Z.inj_succ.
    rewrite Z.pow_succ_r by lia. ring.
Qed.

Lemma binary_round_valid (sx : bool) (mx : positive) (ex : Z) :
  valid (binary_round prec emax sx mx ex) = true.
Proof.
  unfold binary_round, shl_align.
  set (ex' := fexp prec emax (Zpos (digits2_pos mx) + ex)).
  assert (Ex' : ex' = fexp prec emax (Zdigits2 (Zpos mx) + ex))
    by reflexivity.
  destruct (ex' - ex) as [|d|d] eqn:Hd.
  - apply binary_round_aux_valid; lia.
  - apply binary_round_aux_valid; lia.
  - apply binary_round_aux_valid; [lia|].
    rewrite iter_xO_pow, Zdigits2_mul_pow2 by lia.
    replace (Zdigits2 (Zpos mx) + Zpos d + ex')
      with (Zdigits2 (Zpos mx) + ex) by lia.
    lia.
Qed.

Lemma binary_normalize_valid (m e : Z) (sz : bool) :
  valid (binary_normalize prec emax m e sz) = true.
Proof.
  destruct m; [reflexivity|apply binary_round_valid..].
Qed.

Lemma add_valid (x y : number) :
  valid x = true -> valid y = true -> valid (add x y) = true.
Proof.
  intros Hx Hy. unfold add.
  destruct x as [sx|sx| |sx mx ex], y as [sy|sy| |sy my ey];
    try reflexivity; try assumption;
    try (destruct sx, sy; reflexivity).
  cbn [SFadd]. apply binary_normalize_valid.
Qed.

Lemma sub_valid (x y : number) :
  valid x = true -> valid y = true -> valid (sub x y) = true.
Proof.
  intros Hx Hy. unfold sub.
  destruct x as [sx|sx| |sx mx ex], y as [sy|sy| |sy my ey];
    try reflexivity; try assumption;
    try (destruct sx, sy; reflexivity).
  cbn [SFsub]. apply binary_normalize_valid.
Qed.

Lemma mul_valid (x y : number) :
  valid x = true -> valid y = true -> valid (mul x y) = true.
Proof.
  intros Hx Hy. unfold mul.
  destruct x as [sx|sx| |sx mx ex], y as [sy|sy| |sy my ey];
    try reflexivity.
  cbn [SFmul]. destruct (bounded_inv mx ex Hx) as [Hcx _].
  destruct (bounded_inv my ey Hy) as [Hcy _].
  rewrite fexp_unfold in Hcx, Hcy.
  pose proof (Zdigits2_mul_ge (Zpos mx) (Zpos my) ltac:(lia) ltac:(lia))
    as Hge.
  pose proof (Zdigits2_pos (Zpos mx) ltac:(lia)).
  pose proof (Zdigits2_pos (Zpos my) ltac:(lia)).
  apply binary_round_aux_valid; [lia|].
  change (Zpos (mx * my)) with (Zpos mx * Zpos my).
  rewrite fexp_unfold. lia.
Qed.

(** The division core on two positive mantissas with their exponents. *)
Lemma div_core_exponents (m1 m2 e1 e2 : Z) :
  0 < m1 -> 0 < m2 ->
  let e := Z.min (fexp prec emax (Zdigits2 m1 + e1 - (Zdigits2 m2 + e2)))
             (e1 - e2) in
  let q := (m1 * 2 ^ (e1 - e2 - e)) / m2 in
  SFdiv_core_binary prec emax m1 e1 m2 e2
  = (q, e, new_location m2 ((m1 * 2 ^ (e1 - e2 - e)) mod m2))
  /\ 0 <= q /\ e <= fexp prec emax (Zdigits2 q + e).
Proof.
  intros H1 H2 e q.
  assert (Ee : e = Z.min (fexp prec emax
                            (Zdigits2 m1 + e1 - (Zdigits2 m2 + e2)))
                     (e1 - e2)) by reflexivity.
  assert (Hs : 0 <= e1 - e2 - e) by lia.
  split.
  { unfold SFdiv_core_binary. fold e.
    replace (match e1 - e2 - e with
             | Zpos _ => Z.shiftl m1 (e1 - e2 - e)
             | 0 => m1
             | Zneg _ => 0
             end) with (m1 * 2 ^ (e1 - e2 - e)).
    - unfold q, Z.div, Z.modulo.
      destruct (Z.div_eucl (m1 * 2 ^ (e1 - e2 - e)) m2) as [q' r'].
      reflexivity.
    - destruct (e1 - e2 - e) as [|p|p] eqn:E; [cbn; lia| |lia].
      symmetry. apply Z.shiftl_mul_pow2. lia. }
  set (s := e1 - e2 - e) in *.
  set (m' := m1 * 2 ^ s) in *.
  assert (Hp : 0 < 2 ^ s) by (apply Z.pow_pos_nonneg; lia).
  assert (Hm' : 0 < m') by (subst m'; nia).
  pose proof (Z.div_mod m' m2 ltac:(lia)) as Hdm.
  pose proof (Z.mod_pos_bound m' m2 H2) as Hr.
  fold q in Hdm. set (r := m' mod m2) in *.
  assert (Hq : 0 <= q) by nia.
  split; [exact Hq|].
  pose proof (Zdigits2_bounds m1 H1) as Hb1.
  pose proof (Zdigits2_bounds m2 H2) as Hb2.
  pose proof (Zdigits2_pos m1 H1) as Hd1.
  pose proof (Zdigits2_pos m2 H2) as Hd2.
  set (d1 := Zdigits2 m1) in *. set (d2 := Zdigits2 m2) in *.
  assert (Hlow : 2 ^ (d1 - 1 + s) <= m').
  { subst m'. rewrite Z.pow_add_r by lia. nia. }
  destruct (Z.eq_dec q 0) as [Hq0|Hq0].
  - rewrite Hq0 in *. cbn [Zdigits2]. rewrite Z.add_0_l.
    assert (Hlt : 2 ^ (d1 - 1 + s) < 2 ^ d2) by lia.
    apply Z.pow_lt_mono_r_iff in Hlt; [|lia|lia].
    pose proof (fexp_unfold (d1 + e1 - (d2 + e2))) as F1.
    pose proof (fexp_unfold e) as F2. lia.
  - assert (Hqpos : 0 < q) by lia.
    assert (Hdq : d1 + s - d2 <= Zdigits2 q).
    { rewrite Zdigits2_log2 by exact Hqpos.
      destruct (Z.le_gt_cases (d1 - 1 + s - d2) 0) as [Hk|Hk].
      - pose proof (Z.log2_nonneg q). lia.
      - assert (Hk2 : 2 ^ (d1 - 1 + s - d2) <= q).
        { assert (Hx : 2 ^ (d1 - 1 + s - d2) * 2 ^ d2 < (q + 1) * 2 ^ d2).
          { rewrite <- Z.pow_add_r by lia.
            replace (d1 - 1 + s - d2 + d2) with (d1 - 1 + s) by lia. nia. }
          assert (Hy : 2 ^ (d1 - 1 + s - d2) < q + 1) by nia. lia. }
        apply Z.log2_le_pow2 in Hk2; lia. }
    assert (Hf : fexp prec emax (d1 + e1 - (d2 + e2))
                 <= fexp prec emax (Zdigits2 q + e)).
    { apply fexp_mono. lia. }
    lia.
Qed.

Lemma div_valid (x y : number) :
  valid x = true -> valid y = true -> valid (div x y) = true.
Proof.
  intros Hx Hy. unfold div.
  destruct x as [sx|sx| |sx mx ex], y as [sy|sy| |sy my ey];
    try reflexivity.
  cbn [SFdiv].
  destruct (div_core_exponents (Zpos mx) (Zpos my) ex ey
              ltac:(lia) ltac:(lia)) as [Hcore [Hq He]].
  rewrite Hcore. apply binary_round_aux_valid; assumption.
Qed.

Lemma of_Z_valid (n : Z) : valid (of_Z n) = true.
Proof. apply binary_normalize_valid. Qed.

Lemma or_zero_valid (x : number) : valid x = true -> valid (or_zero x) = true.
Proof.
  intros Hx. unfold or_zero. destruct (truthy x); [exact Hx|reflexivity].
Qed.

Lemma apply_operator_valid (op : string) (x y : number) :
  valid x = true -> valid y = true -> valid (apply_operator op x y) = true.
Proof.
  intros Hx Hy. unfold apply_operator.
  destruct (String.eqb op "+"); [now apply add_valid|].
  destruct (String.eqb op "-"); [now apply sub_valid|].
  destruct (String.eqb op "×"); [now apply mul_valid|].
  destruct (String.eqb op "÷"); [now apply div_valid|].
  exact Hy.
Qed.

Lemma initial_wf : wf initial.
Proof. split; [reflexivity|exact I]. Qed.

Lemma step_wf (st : state) (c : command) : wf st -> wf (step st c).
Proof.
  intros [Hm Hs]. destruct c; cbn [step]; try (split; assumption).
  - split; [exact Hm|exact I].
  - unfold inputDot. destruct (Calculator.waitingForOperand st);
      [split; assumption|].
    destruct (negb (includes (display st) ".")); split; assumption.
  - unfold inputDigit. destruct (Calculator.waitingForOperand st);
      split; assumption.
  - unfold performOperation, wf.
    destruct (Calculator.storedValue st) as [stored|] eqn:Es.
    + destruct (Calculator.operator st) as [op|];
        [destruct (String.eqb op "")|]; cbn; rewrite ?Es;
        try (split; assumption).
      split; [exact Hm|].
      apply apply_operator_valid;
        [apply or_zero_valid; exact Hs|apply parseFloat_valid].
    + cbn. split; [exact Hm|apply parseFloat_valid].
  - split; [|exact Hs]. cbn. apply add_valid;
      [exact Hm|apply parseFloat_valid].
  - split; [|exact Hs]. cbn. apply sub_valid;
      [exact Hm|apply parseFloat_valid].
  - split; [reflexivity|exact Hs].
Qed.

Lemma run_wf (cs : list command) :
  forall st : state, wf st -> wf (run st cs).
Proof.
  induction cs as [|c cs IH]; intros st Hst; [exact Hst|].
  cbn. apply IH, step_wf, Hst.
Qed.

(** ** Typing a numeral *)

Lemma string_of_list_ascii_app (l1 l2 : list ascii) :
  string_of_list_ascii (l1 ++ l2)
  = string_of_list_ascii l1 ++ string_of_list_ascii l2.
Proof.
  induction l1 as [|c l1 IH]; [reflexivity|]. cbn. now rewrite IH.
Qed.

Lemma digits_text_snoc (ds : list Z) (d : Z) :
  digits_text (ds ++ [d]) = digits_text ds ++ digit_key d.
Proof.
  unfold digits_text. now rewrite map_app, string_of_list_ascii_app.
Qed.

Lemma digit_char_zero_inv (d : Z) :
  is_digit d -> digit_char d = "0"%char -> d = 0.
Proof.
  intros Hd H. pose proof (digit_of_digit_char d Hd) as E.
  rewrite H in E.
  assert (E0 : digit_of "0"%char = Some 0) by reflexivity. congruence.
Qed.

(** The display test [display === '0'] on a text of digits. *)
Lemma digits_text_is_zero (ds : list Z) :
  Forall is_digit ds ->
  String.eqb (digits_text ds) "0" = true <-> ds = [0].
Proof.
  intros Hds. split.
  - intros H. apply String.eqb_eq in H. unfold digits_text in H.
    destruct ds as [|d [|d' ds]]; cbn [map string_of_list_ascii] in H.
    + discriminate H.
    + injection H as H. inversion Hds as [|? ? Hd _]; subst.
      now rewrite (digit_char_zero_inv d Hd H).
    + injection H as _ H. discriminate H.
  - intros ->. reflexivity.
Qed.

Lemma drop_leading_zeros_cons (d d' : Z) (ds : list Z) :
  drop_leading_zeros (d :: d' :: ds)
  = if d =? 0 then drop_leading_zeros (d' :: ds) else d :: d' :: ds.
Proof. reflexivity. Qed.

Lemma drop_leading_zeros_nonempty (ds : list Z) :
  ds <> [] -> drop_leading_zeros ds <> [].
Proof.
  induction ds as [|d ds IH]; [congruence|]. intros _.
  destruct ds as [|d' ds]; [discriminate|].
  rewrite drop_leading_zeros_cons. destruct (d =? 0); [|discriminate].
  apply IH. discriminate.
Qed.

Lemma drop_leading_zeros_digits (ds : list Z) :
  Forall is_digit ds -> Forall is_digit (drop_leading_zeros ds).
Proof.
  induction ds as [|d ds IH]; intros H; [exact H|].
  destruct ds as [|d' ds]; [exact H|].
  rewrite drop_leading_zeros_cons. destruct (d =? 0); [|exact H].
  apply IH. now inversion H.
Qed.

Lemma drop_leading_zeros_value (ds : list Z) :
  value_from 0 (drop_leading_zeros ds) = value_from 0 ds.
Proof.
  induction ds as [|d ds IH]; [reflexivity|].
  destruct ds as [|d' ds]; [reflexivity|].
  rewrite drop_leading_zeros_cons. destruct (d =? 0) eqn:E; [|reflexivity].
  apply Z.eqb_eq in E. subst d. rewrite IH. reflexivity.
Qed.

(** What one more digit does to the digits shown. *)
Lemma drop_leading_zeros_snoc (ds : list Z) (d : Z) :
  ds <> [] ->
  drop_leading_zeros (ds ++ [d])
  = if list_eq_dec Z.eq_dec (drop_leading_zeros ds) [0] then [d]
    else (drop_leading_zeros ds ++ [d])%list.
Proof.
  induction ds as [|x ds IH]; [congruence|]. intros _.
  destruct ds as [|y ds].
  - change ([x] ++ [d])%list with [x; d].
    rewrite drop_leading_zeros_cons.
    change (drop_leading_zeros [x]) with [x].
    change (drop_leading_zeros [d]) with [d].
    destruct (x =? 0) eqn:E.
    + apply Z.eqb_eq in E. subst x.
      destruct (list_eq_dec Z.eq_dec [0] [0]); [reflexivity|congruence].
    + apply Z.eqb_neq in E.
      destruct (list_eq_dec Z.eq_dec [x] [0]) as [H|H]; [congruence|].
      reflexivity.
  - change ((x :: y :: ds) ++ [d])%list with (x :: y :: (ds ++ [d]))%list.
    rewrite !drop_leading_zeros_cons. destruct (x =? 0) eqn:E.
    + change (y :: (ds ++ [d]))%list with ((y :: ds) ++ [d])%list.
      apply IH. discriminate.
    + apply Z.eqb_neq in E.
      destruct (list_eq_dec Z.eq_dec (x :: y :: ds) [0]) as [H|H];
        [discriminate|reflexivity].
Qed.

(** One digit key on a display of digits, flag down. *)
Lemma inputDigit_on_digits (st : state) (ds : list Z) (d : Z) :
  Calculator.waitingForOperand st = false ->
  ds <> [] -> Forall is_digit ds ->
  display st = digits_text (drop_leading_zeros ds) ->
  display (inputDigit (digit_key d) st)
  = digits_text (drop_leading_zeros (ds ++ [d])).
Proof.
  intros Hw Hne Hds Hdisp. unfold inputDigit. rewrite Hw.
  cbn [display setDisplay]. rewrite Hdisp.
  rewrite (drop_leading_zeros_snoc ds d Hne).
  pose proof (digits_text_is_zero (drop_leading_zeros ds)
                (drop_leading_zeros_digits ds Hds)) as Hz.
  destruct (list_eq_dec Z.eq_dec (drop_leading_zeros ds) [0]) as [E|E].
  - rewrite (proj2 Hz E). reflexivity.
  - destruct (String.eqb (digits_text (drop_leading_zeros ds)) "0") eqn:Eq.
    + exfalso. apply E, Hz. reflexivity.
    + symmetry. apply digits_text_snoc.
Qed.

Lemma inputDigit_frame (digit : string) (st : state) :
  Calculator.storedValue (inputDigit digit st) = Calculator.storedValue st
  /\ Calculator.operator (inputDigit digit st) = Calculator.operator st
  /\ memory (inputDigit digit st) = memory st
  /\ history (inputDigit digit st) = history st
  /\ Calculator.waitingForOperand (inputDigit digit st) = false.
Proof.
  unfold inputDigit. destruct (Calculator.waitingForOperand st) eqn:E;
    cbn; repeat split; exact E.
Qed.

(** The digit keys after the first one. *)
Lemma type_digits_more (more : list Z) :
  forall (st : state) (ds : list Z),
    Calculator.waitingForOperand st = false ->
    ds <> [] -> Forall is_digit ds -> Forall is_digit more ->
    display st = digits_text (drop_leading_zeros ds) ->
    let st' := run st (type_digits more) in
    display st' = digits_text (drop_leading_zeros (ds ++ more))
    /\ Calculator.waitingForOperand st' = false.
Proof.
  induction more as [|d more IH]; intros st ds Hw Hne Hds Hmore Hdisp.
  - cbn. rewrite app_nil_r. split; assumption.
  - inversion Hmore as [|? ? Hd Hmore']; subst.
    cbn [type_digits map run fold_left step].
    change (fold_left step (map (fun d0 => InputDigit (digit_key d0)) more)
              (inputDigit (digit_key d) st))
      with (run (inputDigit (digit_key d) st) (type_digits more)).
    replace (ds ++ d :: more)%list with ((ds ++ [d]) ++ more)%list
      by (now rewrite <- app_assoc).
    apply IH.
    + apply inputDigit_frame.
    + destruct ds; discriminate.
    + apply Forall_app. split; [exact Hds|now constructor].
    + exact Hmore'.
    + now apply inputDigit_on_digits.
Qed.

(** The first digit key of a new operand. *)
Lemma inputDigit_fresh (st : state) (d : Z) :
  fresh st ->
  display (inputDigit (digit_key d) st) = digits_text [d].
Proof.
  intros [Hw|Hz]; unfold inputDigit.
  - rewrite Hw. reflexivity.
  - destruct (Calculator.waitingForOperand st); [reflexivity|].
    cbn [display setDisplay]. rewrite Hz. reflexivity.
Qed.

Lemma type_digits_text (st : state) (ds : list Z) :
  fresh st -> ds <> [] -> Forall is_digit ds ->
  let st' := run st (type_digits ds) in
  display st' = digits_text (drop_leading_zeros ds)
  /\ Calculator.waitingForOperand st' = false.
Proof.
  intros Hf Hne Hds. destruct ds as [|d ds]; [congruence|].
  inversion Hds as [|? ? Hd Hds']; subst.
  cbn [type_digits map run fold_left step].
  change (fold_left step (map (fun d0 => InputDigit (digit_key d0)) ds)
            (inputDigit (digit_key d) st))
    with (run (inputDigit (digit_key d) st) (type_digits ds)).
  change (d :: ds) with ([d] ++ ds)%list.
  apply type_digits_more.
  - apply inputDigit_frame.
  - discriminate.
  - now constructor.
  - exact Hds'.
  - now apply inputDigit_fresh.
Qed.

Lemma run_app (cs1 cs2 : list command) (st : state) :
  run st (cs1 ++ cs2) = run (run st cs1) cs2.
Proof. apply fold_left_app. Qed.

Lemma type_digits_frame (ds : list Z) :
  forall st : state,
    Calculator.storedValue (run st (type_digits ds))
    = Calculator.storedValue st
    /\ Calculator.operator (run st (type_digits ds)) = Calculator.operator st
    /\ memory (run st (type_digits ds)) = memory st
    /\ history (run st (type_digits ds)) = history st.
Proof.
  induction ds as [|d ds IH]; intros st; [repeat split|].
  cbn [type_digits map run fold_left step].
  change (fold_left step (map (fun d0 => InputDigit (digit_key d0)) ds)
            (inputDigit (digit_key d) st))
    with (run (inputDigit (digit_key d) st) (type_digits ds)).
  destruct (IH (inputDigit (digit_key d) st)) as [H1 [H2 [H3 H4]]].
  destruct (inputDigit_frame (digit_key d) st) as [F1 [F2 [F3 [F4 _]]]].
  rewrite H1, H2, H3, H4. repeat split; assumption.
Qed.

Lemma dots_map_digit_char (ds : list Z) :
  Forall is_digit ds -> dots (map digit_char ds) = O.
Proof.
  induction 1 as [|d ds [_ Hd] _ IH]; [reflexivity|].
  cbn [map dots]. now rewrite (digit_char_not_dot d Hd).
Qed.

Lemma count_dots_zero_includes (s : string) :
  count_dots s = O -> includes s "." = false.
Proof.
  induction s as [|c s IH]; [reflexivity|].
  cbn [includes count_dots String.prefix].
  destruct (Ascii.eqb c ".") eqn:Hc; [discriminate|]. intros H.
  rewrite (IH H), orb_false_r.
  destruct (ascii_dec "." c) as [E|E]; [|reflexivity].
  subst c. discriminate Hc.
Qed.

Lemma digits_text_no_dot (ds : list Z) :
  Forall is_digit ds -> includes (digits_text ds) "." = false.
Proof.
  intros Hds. apply count_dots_zero_includes. unfold digits_text.
  rewrite count_dots_of_list. now apply dots_map_digit_char.
Qed.

Lemma integer_part_digits (ds : list Z) :
  Forall is_digit ds -> Forall is_digit (integer_part ds).
Proof.
  intros H. destruct ds as [|d ds].
  - constructor; [unfold is_digit; lia|constructor].
  - now apply drop_leading_zeros_digits.
Qed.

Lemma integer_part_nonempty (ds : list Z) : integer_part ds <> [].
Proof.
  destruct ds as [|d ds]; [discriminate|].
  apply drop_leading_zeros_nonempty. discriminate.
Qed.

Lemma integer_part_value (ds : list Z) :
  value_from 0 (integer_part ds) = value_from 0 ds.
Proof.
  destruct ds as [|d ds]; [reflexivity|]. apply drop_leading_zeros_value.
Qed.

(** The point key after the digits of the integer part (or after none). *)
Lemma inputDot_after_digits (st : state) (ds : list Z) :
  fresh st -> Forall is_digit ds ->
  let st' := inputDot (run st (type_digits ds)) in
  display st' = decimal_text (integer_part ds) []
  /\ Calculator.waitingForOperand st' = false.
Proof.
  intros Hf Hds. destruct ds as [|d ds].
  - cbn [type_digits map run fold_left]. unfold inputDot.
    destruct (Calculator.waitingForOperand st) eqn:Hw; [now split|].
    destruct Hf as [Hf|Hf]; [congruence|]. rewrite Hf.
    split; [reflexivity|exact Hw].
  - destruct (type_digits_text st (d :: ds) Hf ltac:(discriminate) Hds)
      as [Ht Hw].
    unfold inputDot. rewrite Hw, Ht.
    rewrite digits_text_no_dot by (now apply drop_leading_zeros_digits).
    cbn [negb display setDisplay Calculator.waitingForOperand].
    split; [|exact Hw].
    change (integer_part (d :: ds)) with (drop_leading_zeros (d :: ds)).
    unfold decimal_text, digits_text.
    rewrite string_of_list_ascii_app. reflexivity.
Qed.

Lemma long_text_is_not_zero (a c : ascii) (l : list ascii) :
  String.eqb (string_of_list_ascii (a :: c :: l)) "0" = false.
Proof.
  cbn [string_of_list_ascii String.eqb].
  destruct (Ascii.eqb a "0"); reflexivity.
Qed.

Lemma decimal_text_is_not_zero (ds fs : list Z) :
  ds <> [] -> String.eqb (decimal_text ds fs) "0" = false.
Proof.
  intros Hne. unfold decimal_text.
  destruct ds as [|d [|d' ds]]; [congruence| |];
    cbn [map app]; apply long_text_is_not_zero.
Qed.

Lemma decimal_text_snoc (ds fs : list Z) (d : Z) :
  decimal_text ds (fs ++ [d]) = decimal_text ds fs ++ digit_key d.
Proof.
  unfold decimal_text.
  rewrite map_app.
  change ("."%char :: (map digit_char fs ++ map digit_char [d]))%list
    with (("."%char :: map digit_char fs) ++ map digit_char [d])%list.
  rewrite app_assoc, string_of_list_ascii_app. reflexivity.
Qed.

(** The digit keys after the point. *)
Lemma type_fraction_digits (more : list Z) :
  forall (st : state) (ds fs : list Z),
    Calculator.waitingForOperand st = false ->
    ds <> [] ->
    display st = decimal_text ds fs ->
    let st' := run st (type_digits more) in
    display st' = decimal_text ds (fs ++ more)
    /\ Calculator.waitingForOperand st' = false.
Proof.
  induction more as [|d more IH]; intros st ds fs Hw Hne Hdisp.
  - cbn. rewrite app_nil_r. split; assumption.
  - cbn [type_digits map run fold_left step].
    change (fold_left step (map (fun d0 => InputDigit (digit_key d0)) more)
              (inputDigit (digit_key d) st))
      with (run (inputDigit (digit_key d) st) (type_digits more)).
    replace (fs ++ d :: more)%list with ((fs ++ [d]) ++ more)%list
      by (now rewrite <- app_assoc).
    apply IH.
    + apply inputDigit_frame.
    + exact Hne.
    + unfold inputDigit. rewrite Hw. cbn [display setDisplay].
      rewrite Hdisp, (decimal_text_is_not_zero ds fs Hne).
      symmetry. apply decimal_text_snoc.
Qed.

Lemma type_decimal_text (st : state) (ds fs : list Z) :
  fresh st -> Forall is_digit ds ->
  let st' := run st (type_decimal ds fs) in
  display st' = decimal_text (integer_part ds) fs
  /\ Calculator.waitingForOperand st' = false.
Proof.
  intros Hf Hds. unfold type_decimal. rewrite run_app.
  cbn [run fold_left step].
  change (fold_left step (type_digits fs)
            (inputDot (run st (type_digits ds))))
    with (run (inputDot (run st (type_digits ds))) (type_digits fs)).
  destruct (inputDot_after_digits st ds Hf Hds) as [Ht Hw].
  change fs with ([] ++ fs)%list at 2.
  apply type_fraction_digits;
    [exact Hw|apply integer_part_nonempty|exact Ht].
Qed.

Lemma parseFloat_digits_text (ds : list Z) :
  ds <> [] -> Forall is_digit ds ->
  parseFloat (digits_text ds) = round_dec false (value_from 0 ds) 0.
Proof.
  intros Hne Hds. destruct ds as [|d ds]; [congruence|].
  assert (Hd : is_digit d) by (inversion Hds; assumption).
  unfold parseFloat, digits_text.
  rewrite list_ascii_of_string_of_list_ascii.
  cbn [map]. rewrite (parse_chars_digit_head d _ Hd).
  change (digit_char d :: map digit_char ds)
    with (map digit_char (d :: ds)).
  rewrite <- (app_nil_r (map digit_char (d :: ds))).
  rewrite parse_unsigned_integer by (reflexivity || exact Hds).
  reflexivity.
Qed.

Lemma parseFloat_decimal_text (ds fs : list Z) :
  ds <> [] -> Forall is_digit ds -> Forall is_digit fs ->
  parseFloat (decimal_text ds fs)
  = round_dec false (value_from 0 (ds ++ fs)) (- Z.of_nat (length fs)).
Proof.
  intros Hne Hds Hfs. destruct ds as [|d ds]; [congruence|].
  assert (Hd : is_digit d) by (inversion Hds; assumption).
  unfold parseFloat, decimal_text.
  rewrite list_ascii_of_string_of_list_ascii.
  cbn [map app]. rewrite (parse_chars_digit_head d _ Hd).
  change (digit_char d :: (map digit_char ds ++ ?t))%list
    with (map digit_char (d :: ds) ++ t)%list.
  rewrite <- (app_nil_r (map digit_char fs)).
  rewrite parse_unsigned_fraction by (reflexivity || assumption).
  reflexivity.
Qed.

Lemma type_digits_reads (st : state) (ds : list Z) :
  fresh st -> ds <> [] -> Forall is_digit ds ->
  parseFloat (display (run st (type_digits ds)))
  = round_dec false (value_from 0 ds) 0.
Proof.
  intros Hfresh Hne Hds.
  destruct (type_digits_text st ds Hfresh Hne Hds) as [Ht _].
  rewrite Ht, parseFloat_digits_text.
  - now rewrite drop_leading_zeros_value.
  - now apply drop_leading_zeros_nonempty.
  - now apply drop_leading_zeros_digits.
Qed.

(** Typing the digits of an integer into a new operand shows the digits
    without their leading zeros, and the display reads as the Number nearest
    to the integer typed. *)
Theorem typed_integer (st : state) (ds : list Z)
    (Hfresh : fresh st) (Hne : ds <> []) (Hds : Forall is_digit ds) :
  display (run st (type_digits ds)) = digits_text (drop_leading_zeros ds)
  /\ parseFloat (display (run st (type_digits ds)))
     = round_dec false (value_from 0 ds) 0
  /\ Calculator.waitingForOperand (run st (type_digits ds)) = false.
Proof.
  destruct (type_digits_text st ds Hfresh Hne Hds) as [Ht Hw].
  split; [exact Ht|]. split; [|exact Hw].
  now apply type_digits_reads.
Qed.

Lemma typed_integer_witness :
  display (run initial (type_digits [0; 0; 4; 2])) = "42"
  /\ parseFloat (display (run initial (type_digits [0; 0; 4; 2])))
     = round_dec false 42 0
  /\ Calculator.waitingForOperand (run initial (type_digits [0; 0; 4; 2]))
     = false.
Proof.
  apply (typed_integer initial [0; 0; 4; 2]).
  - right. reflexivity.
  - discriminate.
  - repeat constructor; unfold is_digit; lia.
Defined.

(** Typing digits, the point and more digits into a new operand shows the
    integer part (a "0" if no digit was typed before the point), the point
    and the fraction digits as typed, and the display reads as the Number
    nearest to that decimal. *)
Theorem typed_decimal (st : state) (ds fs : list Z)
    (Hfresh : fresh st) (Hds : Forall is_digit ds)
    (Hfs : Forall is_digit fs) :
  display (run st (type_decimal ds fs)) = decimal_text (integer_part ds) fs
  /\ parseFloat (display (run st (type_decimal ds fs)))
     = round_dec false (value_from 0 (ds ++ fs)) (- Z.of_nat (length fs)).
Proof.
  destruct (type_decimal_text st ds fs Hfresh Hds) as [Ht _].
  split; [exact Ht|].
  rewrite Ht, parseFloat_decimal_text.
  - now rewrite !value_from_app, integer_part_value.
  - apply integer_part_nonempty.
  - now apply integer_part_digits.
  - exact Hfs.
Qed.

Lemma typed_decimal_witness :
  display (run initial (type_decimal [] [2; 5])) = "0.25"
  /\ parseFloat (display (run initial (type_decimal [] [2; 5])))
     = round_dec false 25 (-2).
Proof.
  apply (typed_decimal initial [] [2; 5]).
  - right. reflexivity.
  - constructor.
  - repeat constructor; unfold is_digit; lia.
Defined.

(** ** Resolving a pending operator *)

Lemma performOperation_resolve (next : string) (st : state) (a : number)
    (op : string) :
  Calculator.storedValue st = Some a ->
  Calculator.operator st = Some op ->
  op <> "" ->
  let v := parseFloat (display st) in
  let r := apply_operator op (or_zero a) v in
  Calculator.storedValue (performOperation next st) = Some r
  /\ display (performOperation next st) = toString r
  /\ history (performOperation next st)
     = (history st ++ [history_line (or_zero a) op v r])%list.
Proof.
  intros Hs Ho Hop. unfold performOperation. rewrite Hs, Ho.
  destruct (String.eqb_spec op ""); [contradiction|].
  cbn. repeat split.
Qed.

Lemma resolve_after_typing (next : string) (st : state) (a : number)
    (op : string) (ds : list Z) :
  fresh st ->
  Calculator.storedValue st = Some a ->
  Calculator.operator st = Some op ->
  op <> "" ->
  ds <> [] -> Forall is_digit ds ->
  let v := round_dec false (value_from 0 ds) 0 in
  let r := apply_operator op (or_zero a) v in
  let st' := performOperation next (run st (type_digits ds)) in
  Calculator.storedValue st' = Some r
  /\ display st' = toString r
  /\ history st' = (history st ++ [history_line (or_zero a) op v r])%list.
Proof.
  intros Hf Hs Ho Hop Hne Hds.
  destruct (type_digits_frame ds st) as [F1 [F2 [_ F4]]].
  pose proof (type_digits_reads st ds Hf Hne Hds) as Hv.
  rewrite <- F1 in Hs. rewrite <- F2 in Ho.
  pose proof (performOperation_resolve next _ a op Hs Ho Hop) as H.
  cbv zeta in H. rewrite Hv, F4 in H. exact H.
Qed.

(** After an operator key and a typed integer, the next operator key (or
    the equals key) applies the first operator to the value stored by the
    first press and the integer typed: the chain is evaluated from the left,
    whatever the second operator is. *)
Theorem operator_numeral_operator (st : state) (op next : string)
    (ds : list Z)
    (Hop : op <> "") (Hne : ds <> []) (Hds : Forall is_digit ds) :
  exists a : number,
    Calculator.storedValue (performOperation op st) = Some a
    /\ let v := round_dec false (value_from 0 ds) 0 in
       let r := apply_operator op (or_zero a) v in
       let st' := performOperation next
                    (run (performOperation op st) (type_digits ds)) in
       Calculator.storedValue st' = Some r
       /\ display st' = toString r
       /\ history st'
          = (history (performOperation op st)
             ++ [history_line (or_zero a) op v r])%list.
Proof.
  destruct (Calculator.storedValue (performOperation op st)) as [a|] eqn:Ha.
  - exists a. split; [reflexivity|].
    apply resolve_after_typing; try assumption.
    + left. reflexivity.
    + reflexivity.
  - exfalso. exact (performOperation_stored op st Ha).
Qed.

Lemma operator_numeral_operator_witness :
  exists a : number,
    Calculator.storedValue
      (performOperation "-" (run initial (type_digits [9; 0]))) = Some a
    /\ let v := round_dec false (value_from 0 [4; 8]) 0 in
       let r := apply_operator "-" (or_zero a) v in
       let st' := performOperation "×"
                    (run (performOperation "-"
                            (run initial (type_digits [9; 0])))
                       (type_digits [4; 8])) in
       Calculator.storedValue st' = Some r
       /\ display st' = toString r
       /\ history st'
          = (history (performOperation "-"
                        (run initial (type_digits [9; 0])))
             ++ [history_line (or_zero a) "-" v r])%list.
Proof.
  apply (operator_numeral_operator
           (run initial (type_digits [9; 0])) "-" "×" [4; 8]).
  - discriminate.
  - discriminate.
  - repeat constructor; unfold is_digit; lia.
Defined.

(** The entry-clear key in the middle of a chain: whatever the display held
    is dropped, the stored value and the operator stay, and the operator is
    resolved against the integer typed after the key. *)
Theorem clearDisplay_corrects_operand (st : state) (a : number)
    (op next : string) (ds : list Z)
    (Hstored : Calculator.storedValue st = Some a)
    (Hoperator : Calculator.operator st = Some op)
    (Hop : op <> "") (Hne : ds <> []) (Hds : Forall is_digit ds) :
  let v := round_dec false (value_from 0 ds) 0 in
  let r := apply_operator op (or_zero a) v in
  let st' := performOperation next
               (run (clearDisplay st) (type_digits ds)) in
  Calculator.storedValue st' = Some r
  /\ display st' = toString r
  /\ memory st' = memory st.
Proof.
  intros v r st'.
  destruct (resolve_after_typing next (clearDisplay st) a op ds)
    as [H1 [H2 _]]; try assumption.
  - right. reflexivity.
  - split; [exact H1|]. split; [exact H2|].
    subst st'. unfold performOperation.
    destruct (type_digits_frame ds (clearDisplay st)) as [F1 [F2 [F3 _]]].
    destruct (Calculator.storedValue (run (clearDisplay st) (type_digits ds)));
      [destruct (Calculator.operator (run (clearDisplay st) (type_digits ds)));
       [destruct (String.eqb _ "")|]|]; cbn; exact F3.
Qed.

Lemma clearDisplay_corrects_operand_witness :
  let st := run initial (type_digits [7] ++ PerformOperation "+"
                         :: type_digits [9; 9]) in
  let v := round_dec false (value_from 0 [2]) 0 in
  let r := apply_operator "+" (or_zero (parseFloat "7")) v in
  let st' := performOperation "="
               (run (clearDisplay st) (type_digits [2])) in
  Calculator.storedValue st' = Some r
  /\ display st' = toString r
  /\ memory st' = memory st.
Proof.
  apply (clearDisplay_corrects_operand
           (run initial (type_digits [7] ++ PerformOperation "+"
                         :: type_digits [9; 9]))
           (parseFloat "7") "+" "=" [2]).
  - reflexivity.
  - reflexivity.
  - discriminate.
  - discriminate.
  - repeat constructor; unfold is_digit; lia.
Defined.

(** ** Invariants of a session *)

Lemma step_chain_link (st : state) (c : command) :
  (Calculator.storedValue st = None <-> Calculator.operator st = None) ->
  (Calculator.storedValue (step st c) = None
   <-> Calculator.operator (step st c) = None).
Proof.
  intros H. destruct c; cbn [step]; try exact H.
  - cbn. tauto.
  - unfold inputDot. destruct (Calculator.waitingForOperand st);
      [exact H|].
    destruct (negb (includes (display st) ".")); exact H.
  - unfold inputDigit. destruct (Calculator.waitingForOperand st); exact H.
  - split; intros E.
    + exfalso. exact (performOperation_stored _ _ E).
    + discriminate E.
Qed.

(** The stored value is null exactly when the operator is null, after every
    sequence of commands from the initial state. *)
Theorem stored_null_iff_operator_null (cs : list command) :
  Calculator.storedValue (run initial cs) = None
  <-> Calculator.operator (run initial cs) = None.
Proof.
  assert (H : forall st,
             (Calculator.storedValue st = None
              <-> Calculator.operator st = None) ->
             (Calculator.storedValue (run st cs) = None
              <-> Calculator.operator (run st cs) = None)).
  { induction cs as [|c cs IH]; intros st Hst; [exact Hst|].
    cbn. apply IH, step_chain_link, Hst. }
  apply H. cbn. tauto.
Qed.

Lemma is_operator_key_nonempty (o : string) :
  is_binary_operator o || String.eqb o "=" = true -> o <> "".
Proof.
  intros H ->. discriminate H.
Qed.

Lemma step_chain_inv (st : state) (c : command) :
  button_command c = true -> chain_inv st -> chain_inv (step st c).
Proof.
  intros Hc H. destruct c; cbn [step]; try exact H.
  - exact I.
  - unfold inputDot. destruct (Calculator.waitingForOperand st);
      [exact H|].
    destruct (negb (includes (display st) ".")); exact H.
  - unfold inputDigit. destruct (Calculator.waitingForOperand st); exact H.
  - cbn [button_command] in Hc.
    pose proof (is_operator_key_nonempty _ Hc) as Hne.
    unfold chain_inv. rewrite performOperation_operator.
    destruct (Calculator.storedValue (performOperation nextOperator st))
      eqn:E; [exact Hne|].
    exact (performOperation_stored _ _ E).
Qed.

Lemma run_chain_inv (cs : list command) :
  forall st : state,
    forallb button_command cs = true -> chain_inv st ->
    chain_inv (run st cs).
Proof.
  induction cs as [|c cs IH]; intros st Hcs Hst; [exact Hst|].
  cbn in Hcs. apply andb_true_iff in Hcs. destruct Hcs as [Hc Hcs].
  cbn. apply IH; [exact Hcs|]. now apply step_chain_inv.
Qed.

Lemma unsigned_zero_idem (x : number) :
  unsigned_zero (unsigned_zero x) = unsigned_zero x.
Proof. destruct x; reflexivity. Qed.

(** Right after an operator key (or the equals key) the display shows the
    stored value: in every session of button presses, the display then reads
    as the Number stored, a zero of either sign being shown as "0". *)
Theorem display_shows_stored_value (cs : list command) (o : string)
    (Hcs : forallb button_command cs = true)
    (Ho : is_binary_operator o || String.eqb o "=" = true) :
  exists r : number,
    Calculator.storedValue (run initial (cs ++ [PerformOperation o]))
    = Some r
    /\ unsigned_zero
         (parseFloat (display (run initial (cs ++ [PerformOperation o]))))
       = unsigned_zero r.
Proof.
  rewrite run_app. cbn [run fold_left step].
  pose proof (run_wf cs initial initial_wf) as [_ Hwf].
  pose proof (run_chain_inv cs initial Hcs I) as Hinv.
  set (st := run initial cs) in *. unfold chain_inv in Hinv.
  destruct (Calculator.storedValue st) as [a|] eqn:Hs;
    destruct (Calculator.operator st) as [op|] eqn:Hop; try contradiction.
  - destruct (performOperation_resolve o st a op Hs Hop Hinv)
      as [H1 [H2 _]].
    eexists. split; [exact H1|].
    rewrite H2, parseFloat_toString.
    + apply unsigned_zero_idem.
    + apply apply_operator_valid;
        [apply or_zero_valid; exact Hwf|apply parseFloat_valid].
  - exists (parseFloat (display st)).
    unfold performOperation. rewrite Hs. cbn. split; reflexivity.
Qed.

Lemma display_shows_stored_value_witness :
  exists r : number,
    Calculator.storedValue
      (run initial ([InputDigit "1"; PerformOperation "÷"; InputDigit "3"]
                    ++ [PerformOperation "="]))
    = Some r
    /\ unsigned_zero
         (parseFloat
            (display
               (run initial
                  ([InputDigit "1"; PerformOperation "÷"; InputDigit "3"]
                   ++ [PerformOperation "="]))))
       = unsigned_zero r.
Proof.
  exact (display_shows_stored_value
           [InputDigit "1"; PerformOperation "÷"; InputDigit "3"] "="
           eq_refl eq_refl).
Defined.

Lemma step_same_but_history (st st' : state) (c : command) :
  same_but_history st st' -> same_but_history (step st c) (step st' c).
Proof.
  intros [Hd [Hs [Ho [Hw Hm]]]].
  destruct c; cbn [step]; unfold same_but_history.
  - repeat split; assumption.
  - repeat split; assumption.
  - unfold toggleSign. cbn. rewrite Hd. repeat split; assumption.
  - unfold inputPercent. cbn. rewrite Hd. repeat split; assumption.
  - unfold inputDot. rewrite Hw, Hd.
    destruct (Calculator.waitingForOperand st) eqn:Ew;
      [cbn; repeat split; assumption|].
    destruct (negb (includes (display st) ".")); cbn;
      rewrite ?Hd; repeat split;
      first [assumption|reflexivity|congruence].
  - unfold inputDigit. rewrite Hw, Hd.
    destruct (Calculator.waitingForOperand st) eqn:Ew; cbn;
      repeat split; first [assumption|reflexivity|congruence].
  - unfold performOperation. rewrite Hs, Ho, Hd.
    destruct (Calculator.storedValue st) as [a|] eqn:Es;
      [destruct (Calculator.operator st) as [op|] eqn:Eo;
       [destruct (String.eqb op "")|]|];
      cbn; repeat split; first [assumption|reflexivity|congruence].
  - unfold handleMemoryAdd. cbn. rewrite Hd, Hm.
    repeat split; first [assumption|reflexivity].
  - unfold handleMemorySubtract. cbn. rewrite Hd, Hm.
    repeat split; first [assumption|reflexivity].
  - unfold handleMemoryRecall. cbn. rewrite Hm.
    repeat split; first [assumption|reflexivity].
  - repeat split; first [assumption|reflexivity].
Qed.

(** The history is written and never read: two sessions of the same
    commands from states that differ only in their history agree on the
    display, the stored value, the operator, the flag and the memory. *)
Theorem history_is_never_read (cs : list command) (st st' : state)
    (Hsame : same_but_history st st') :
  same_but_history (run st cs) (run st' cs).
Proof.
  revert st st' Hsame.
  induction cs as [|c cs IH]; intros st st' Hsame; [exact Hsame|].
  cbn. apply IH, step_same_but_history, Hsame.
Qed.

Lemma history_is_never_read_witness :
  same_but_history
    (run initial chain_3_plus_4_times_2)
    (run (setHistory (fun _ => ["1 + 1 = 2"]) initial)
       chain_3_plus_4_times_2).
Proof.
  apply (history_is_never_read chain_3_plus_4_times_2 initial
           (setHistory (fun _ => ["1 + 1 = 2"]) initial)).
  repeat split.
Defined.

(** ** What the keys write reads back *)

(** The sign key and the percent key show the Number they compute without
    loss: the new display reads as the negated value, and as the value
    divided by 100 (a zero of either sign being shown as "0"). *)
Theorem sign_and_percent_read_back (st : state) :
  parseFloat (display (toggleSign st))
  = unsigned_zero (neg (parseFloat (display st)))
  /\ parseFloat (display (inputPercent st))
     = unsigned_zero (div (parseFloat (display st)) (of_Z 100)).
Proof.
  split.
  - unfold toggleSign. cbn [display setDisplay].
    apply parseFloat_toString. rewrite neg_valid. apply parseFloat_valid.
  - unfold inputPercent. cbn [display setDisplay].
    apply parseFloat_toString. apply div_valid;
      [apply parseFloat_valid|apply of_Z_valid].
Qed.

Lemma add_zero_l (v : number) : add (of_Z 0) v = unsigned_zero v.
Proof. destruct v as [[|]|s| |s m e]; reflexivity. Qed.

(** Memory round trip: the recall key shows the memory without loss and
    sets the flag, and the keys MC, M+, MR bring back the value of the
    display they started from. *)
Theorem memory_round_trip (st : state) (Hwf : wf st) :
  parseFloat (display (handleMemoryRecall st)) = unsigned_zero (memory st)
  /\ unsigned_zero
       (parseFloat
          (display (run st [MemoryClear; MemoryAdd; MemoryRecall])))
     = unsigned_zero (parseFloat (display st))
  /\ Calculator.waitingForOperand
       (run st [MemoryClear; MemoryAdd; MemoryRecall]) = true.
Proof.
  destruct Hwf as [Hm _]. split.
  - unfold handleMemoryRecall. cbn [display setDisplay setWaitingForOperand].
    now apply parseFloat_toString.
  - split; [|reflexivity].
    cbn [run fold_left step]. unfold handleMemoryRecall.
    cbn [display setDisplay setWaitingForOperand memory handleMemoryAdd
         handleMemoryClear setMemory].
    rewrite add_zero_l, parseFloat_toString.
    + now rewrite !unsigned_zero_idem.
    + rewrite unsigned_zero_valid. apply parseFloat_valid.
Qed.

Lemma memory_round_trip_witness :
  let st := run initial (type_decimal [1; 2] [5]) in
  parseFloat (display (handleMemoryRecall st)) = unsigned_zero (memory st)
  /\ unsigned_zero
       (parseFloat
          (display (run st [MemoryClear; MemoryAdd; MemoryRecall])))
     = unsigned_zero (parseFloat (display st))
  /\ Calculator.waitingForOperand
       (run st [MemoryClear; MemoryAdd; MemoryRecall]) = true.
Proof.
  apply (memory_round_trip (run initial (type_decimal [1; 2] [5]))).
  split; [reflexivity|exact I].
Defined.

(** A stored value that is NaN or a zero counts as [+0] when the operator
    is resolved: with the operator ["+"] the display then shows the operand
    itself, so a NaN left in the stored value does not spread. *)
Theorem falsy_stored_value_counts_as_zero (next : string) (st : state)
    (a : number)
    (Hstored : Calculator.storedValue st = Some a)
    (Hfalsy : truthy a = false)
    (Hop : Calculator.operator st = Some "+") :
  Calculator.storedValue (performOperation next st)
  = Some (unsigned_zero (parseFloat (display st)))
  /\ display (performOperation next st)
     = toString (parseFloat (display st)).
Proof.
  destruct (performOperation_resolve next st a "+" Hstored Hop
              ltac:(discriminate)) as [H1 [H2 _]].
  cbv zeta in H1, H2. unfold or_zero in H1, H2. rewrite Hfalsy in H1, H2.
  change (apply_operator "+" (of_Z 0) (parseFloat (display st)))
    with (add (of_Z 0) (parseFloat (display st))) in H1, H2.
  rewrite add_zero_l in H1, H2. split; [exact H1|].
  rewrite H2. destruct (parseFloat (display st)); reflexivity.
Qed.

Lemma falsy_stored_value_counts_as_zero_witness :
  let st := run initial (zero_by_zero ++ [PerformOperation "+";
                                          InputDigit "5"]) in
  Calculator.storedValue (performOperation "=" st)
  = Some (unsigned_zero (parseFloat (display st)))
  /\ display (performOperation "=" st)
     = toString (parseFloat (display st)).
Proof.
  apply (falsy_stored_value_counts_as_zero "="
           (run initial (zero_by_zero ++ [PerformOperation "+";
                                          InputDigit "5"]))
           NaN); reflexivity.
Defined.

(** ** The earlier revision *)

Lemma toString_digit (d : Z) : is_digit d -> toString (of_Z d) = digit_key d.
Proof.
  intros [H0 H9].
  assert (H : d = 0 \/ d = 1 \/ d = 2 \/ d = 3 \/ d = 4 \/ d = 5
              \/ d = 6 \/ d = 7 \/ d = 8 \/ d = 9) by lia.
  repeat (destruct H as [->|H]; [vm_compute; reflexivity|]).
  subst d. vm_compute. reflexivity.
Qed.

Lemma keypad_digit (d : Z) : (0 <=? d) && (d <=? 9) = true -> is_digit d.
Proof.
  intros H. apply andb_true_iff in H. destruct H as [H0 H9].
  apply Z.leb_le in H0. apply Z.leb_le in H9. split; assumption.
Qed.

Lemma index_none_includes (sub s : string) :
  String.index 0 sub s = None <-> includes s sub = false.
Proof.
  induction s as [|c s IH].
  - cbn. destruct sub; split; intros H; cbn in *;
      first [discriminate H|reflexivity].
  - cbn [String.index includes].
    destruct (String.prefix sub (String c s)); cbn [orb].
    + split; discriminate.
    + destruct (String.index 0 sub s) as [n|].
      * split; [discriminate|]. intros H. apply IH in H. discriminate H.
      * split; [intros _; now apply IH|reflexivity].
Qed.

(** [s.indexOf(sub) === -1] is [!s.includes(sub)]. *)
Lemma indexOf_includes (s sub : string) :
  Z.eqb (Legacy.indexOf s sub) (-1) = negb (includes s sub).
Proof.
  unfold Legacy.indexOf.
  pose proof (index_none_includes sub s) as H.
  destruct (String.index 0 sub s) as [n|].
  - destruct (includes s sub).
    + cbn [negb]. apply Z.eqb_neq. lia.
    + exfalso. assert (E : Some n = None) by (now apply H). discriminate E.
  - rewrite (proj1 H eq_refl). reflexivity.
Qed.

Lemma legacy_apply_operator (op : string) (x y : number) :
  is_binary_operator op = true ->
  Legacy.apply_operator op x y = apply_operator op x y.
Proof.
  unfold is_binary_operator, Legacy.apply_operator, apply_operator.
  destruct (String.eqb op "+"); [reflexivity|].
  destruct (String.eqb op "-"); [reflexivity|].
  destruct (String.eqb op "×"); [reflexivity|].
  destruct (String.eqb op "÷"); [reflexivity|discriminate].
Qed.

Lemma binary_operator_nonempty (op : string) :
  is_binary_operator op = true -> String.eqb op "" = false.
Proof.
  intros H. destruct (String.eqb_spec op ""); [|reflexivity].
  subst op. discriminate H.
Qed.

Ltac agree_tac :=
  unfold agree; cbn; repeat split;
  first [assumption|reflexivity|congruence].

Lemma press_agree (ls : Legacy.state) (st : state) (k : key) :
  keypad_key k = true -> not_equals k = true ->
  agree ls st -> arithmetic_operator (Calculator.operator st) ->
  agree (legacy_press ls k) (step st (calculator_command k))
  /\ arithmetic_operator
       (Calculator.operator (step st (calculator_command k))).
Proof.
  intros Hk Hne [Hd [Hs [Ho Hw]]] Harith.
  destruct k; cbn [legacy_press calculator_command step keypad_key] in *;
    try discriminate.
  - pose proof (toString_digit d (keypad_digit d Hk)) as Ht.
    unfold Legacy.inputDigit, inputDigit. rewrite Ht, Hw, Hd.
    destruct (Calculator.waitingForOperand st) eqn:Ew;
      (split; [agree_tac|exact Harith]).
  - unfold Legacy.inputDot, inputDot. rewrite Hw, Hd, indexOf_includes.
    destruct (Calculator.waitingForOperand st) eqn:Ew;
      [|destruct (negb (includes (display st) "."))];
      (split; [agree_tac|exact Harith]).
  - unfold Legacy.performOperation, performOperation.
    rewrite Hs, Ho, Hd.
    destruct (Calculator.storedValue st) as [a|] eqn:Es.
    + destruct (Calculator.operator st) as [o|] eqn:Eo.
      * cbn in Harith. rewrite (binary_operator_nonempty o Harith).
        rewrite (legacy_apply_operator o _ _ Harith).
        split; [agree_tac|exact Hk].
      * split; [agree_tac|exact Hk].
    + split; [agree_tac|exact Hk].
  - split; [agree_tac|exact I].
  - unfold Legacy.toggleSign, toggleSign. rewrite Hd.
    split; [agree_tac|exact Harith].
  - unfold Legacy.handlePercentage, inputPercent. rewrite Hd.
    split; [agree_tac|exact Harith].
Qed.

(** The two revisions agree as long as the equals key is not pressed: after
    the same digits, points, arithmetic operators, all-clear, sign and
    percent keys from their initial states, they hold the same display,
    stored value, operator and flag. *)
Theorem revisions_agree_without_equals (ks : list key)
    (Hkeys : forallb keypad_key ks = true)
    (Hne : forallb not_equals ks = true) :
  agree (legacy_run Legacy.initial ks)
        (run initial (map calculator_command ks)).
Proof.
  assert (H : forall ls st,
             agree ls st -> arithmetic_operator (Calculator.operator st) ->
             agree (legacy_run ls ks) (run st (map calculator_command ks))).
  { induction ks as [|k ks IH]; intros ls st Ha Hop; [exact Ha|].
    cbn in Hkeys, Hne.
    apply andb_true_iff in Hkeys. destruct Hkeys as [Hk Hkeys].
    apply andb_true_iff in Hne. destruct Hne as [Hn Hne].
    destruct (press_agree ls st k Hk Hn Ha Hop) as [Ha' Hop'].
    cbn. apply (IH Hkeys Hne); assumption. }
  apply H; [repeat split|exact I].
Qed.

Lemma revisions_agree_without_equals_witness :
  agree (legacy_run Legacy.initial
           [KDigit 1; KDot; KDigit 5; KOperator "×"; KDigit 4; KSign;
            KOperator "-"; KPercent])
        (run initial
           (map calculator_command
              [KDigit 1; KDot; KDigit 5; KOperator "×"; KDigit 4; KSign;
               KOperator "-"; KPercent])).
Proof.
  exact (revisions_agree_without_equals
           [KDigit 1; KDot; KDigit 5; KOperator "×"; KDigit 4; KSign;
            KOperator "-"; KPercent] eq_refl eq_refl).
Defined.

(** In the earlier revision the equals key does nothing when pressed a
    second time, and nothing right after an operator key. *)
Theorem handleEquals_idempotent (ls : Legacy.state) (op : string) :
  Legacy.handleEquals (Legacy.handleEquals ls) = Legacy.handleEquals ls
  /\ Legacy.handleEquals (Legacy.performOperation op ls)
     = Legacy.performOperation op ls.
Proof.
  split.
  - unfold Legacy.handleEquals at 2 3.
    destruct (Legacy.op_truthy (Legacy.operator ls)
              && negb (Legacy.waitingForOperand ls)) eqn:G.
    + reflexivity.
    + unfold Legacy.handleEquals. now rewrite G.
  - unfold Legacy.handleEquals.
    replace (Legacy.waitingForOperand (Legacy.performOperation op ls))
      with true by reflexivity.
    cbn [negb]. now rewrite andb_false_r.
Qed.

Lemma legacy_performOperation_stored (next : string) (ls : Legacy.state) :
  Legacy.storedValue (Legacy.performOperation next ls) <> None.
Proof.
  unfold Legacy.performOperation.
  destruct (Legacy.storedValue ls) as [stored|] eqn:Hs; [|now cbn].
  destruct (Legacy.operator ls) as [op|]; cbn.
  - destruct (String.eqb op ""); cbn; congruence.
  - congruence.
Qed.

(** After the equals key the two revisions part.  In the earlier one the
    stored value survives the next digit and operator keys, so the chain
    goes on from the old result; in the application component the operator
    key stores the number just typed.  After 3 + 4 = 5 × 2 = the earlier
    revision shows "14" and the application component "10". *)
Theorem stored_value_after_equals (ls : Legacy.state) (st : state)
    (d : Z) (op : string)
    (Hd : is_digit d)
    (Hguard : Legacy.op_truthy (Legacy.operator ls) = true)
    (Hflag : Legacy.waitingForOperand ls = false) :
  Legacy.storedValue
    (Legacy.performOperation op
       (Legacy.inputDigit (of_Z d) (Legacy.handleEquals ls)))
  = Legacy.storedValue (Legacy.handleEquals ls)
  /\ Legacy.storedValue (Legacy.handleEquals ls) <> None
  /\ Calculator.storedValue
       (performOperation op
          (inputDigit (digit_key d) (performOperation "=" st)))
     = Some (parseFloat (digit_key d))
  /\ Legacy.displayValue
       (legacy_run Legacy.initial
          [KDigit 3; KOperator "+"; KDigit 4; KEquals;
           KDigit 5; KOperator "×"; KDigit 2; KEquals]) = "14"
  /\ display
       (run initial
          (map calculator_command
             [KDigit 3; KOperator "+"; KDigit 4; KEquals;
              KDigit 5; KOperator "×"; KDigit 2; KEquals])) = "10".
Proof.
  assert (Hl : Legacy.handleEquals ls
               = Legacy.setOperator None (Legacy.performOperation "=" ls)).
  { unfold Legacy.handleEquals. now rewrite Hguard, Hflag. }
  set (l1 := Legacy.handleEquals ls) in *.
  assert (Hop1 : Legacy.operator l1 = None) by (now rewrite Hl).
  assert (Hst1 : Legacy.storedValue l1 <> None).
  { rewrite Hl. cbn [Legacy.storedValue Legacy.setOperator].
    apply legacy_performOperation_stored. }
  split.
  { destruct (Legacy.storedValue l1) as [r|] eqn:Er; [|congruence].
    unfold Legacy.performOperation.
    assert (F1 : Legacy.storedValue (Legacy.inputDigit (of_Z d) l1) = Some r).
    { unfold Legacy.inputDigit.
      destruct (Legacy.waitingForOperand l1); cbn; exact Er. }
    assert (F2 : Legacy.operator (Legacy.inputDigit (of_Z d) l1) = None).
    { unfold Legacy.inputDigit.
      destruct (Legacy.waitingForOperand l1); cbn; exact Hop1. }
    rewrite F1, F2. cbn. exact F1. }
  split; [exact Hst1|].
  split; [|split; vm_compute; reflexivity].
  set (s1 := performOperation "=" st).
  assert (Es : exists a, Calculator.storedValue s1 = Some a).
  { destruct (Calculator.storedValue s1) eqn:E; [eexists; reflexivity|].
    exfalso. exact (performOperation_stored "=" st E). }
  destruct Es as [a Es].
  edestruct (performOperation_resolve op (inputDigit (digit_key d) s1) a "=")
    as [H1 _].
  - unfold inputDigit. cbn. exact Es.
  - reflexivity.
  - discriminate.
  - rewrite H1. reflexivity.
Qed.

Lemma stored_value_after_equals_witness :
  Legacy.storedValue
    (Legacy.performOperation "×"
       (Legacy.inputDigit (of_Z 5)
          (Legacy.handleEquals
             (legacy_run Legacy.initial
                [KDigit 3; KOperator "+"; KDigit 4]))))
  = Legacy.storedValue
      (Legacy.handleEquals
         (legacy_run Legacy.initial [KDigit 3; KOperator "+"; KDigit 4])).
Proof.
  exact (proj1 (stored_value_after_equals
                  (legacy_run Legacy.initial
                     [KDigit 3; KOperator "+"; KDigit 4])
                  initial 5 "×" ltac:(unfold is_digit; lia)
                  eq_refl eq_refl)).
Defined.

Lemma digit_key_is_digit_key (d : Z) :
  is_digit d -> is_digit_key (digit_key d) = true.
Proof.
  intros Hd. unfold is_digit_key, digit_key.
  now rewrite (digit_of_digit_char d Hd).
Qed.

Lemma legacy_press_dots (ls : Legacy.state) (k : key) :
  keypad_key k = true ->
  (count_dots (Legacy.displayValue ls) <= 1)%nat ->
  (count_dots (Legacy.displayValue (legacy_press ls k)) <= 1)%nat.
Proof.
  intros Hk Hls.
  assert (Hperform : forall next,
             (count_dots (Legacy.displayValue
                            (Legacy.performOperation next ls)) <= 1)%nat).
  { intros next. unfold Legacy.performOperation.
    destruct (Legacy.storedValue ls) as [a|]; [|exact Hls].
    destruct (Legacy.operator ls) as [o|]; [|exact Hls].
    destruct (String.eqb o ""); [exact Hls|].
    cbn. apply count_dots_toString. }
  destruct k; cbn [legacy_press keypad_key] in *.
  - pose proof (keypad_digit d Hk) as Hd.
    pose proof (is_digit_key_no_dot _ (digit_key_is_digit_key d Hd)) as H0.
    unfold Legacy.inputDigit. rewrite (toString_digit d Hd).
    destruct (Legacy.waitingForOperand ls);
      cbn [Legacy.displayValue Legacy.setDisplayValue
           Legacy.setWaitingForOperand]; [lia|].
    destruct (String.eqb (Legacy.displayValue ls) "0"); [lia|].
    rewrite count_dots_append. lia.
  - unfold Legacy.inputDot. rewrite indexOf_includes.
    destruct (Legacy.waitingForOperand ls); [cbn; lia|].
    destruct (includes (Legacy.displayValue ls) ".") eqn:Hi;
      cbn [negb]; [exact Hls|].
    cbn [Legacy.displayValue Legacy.setDisplayValue].
    rewrite count_dots_append, (includes_dot_false _ Hi). cbn. lia.
  - apply Hperform.
  - unfold Legacy.handleEquals.
    destruct (Legacy.op_truthy (Legacy.operator ls)
              && negb (Legacy.waitingForOperand ls)); [|exact Hls].
    apply Hperform.
  - cbn. lia.
  - apply count_dots_toString.
  - apply count_dots_toString.
Qed.

(** The display of the earlier revision holds at most one '.' after every
    sequence of its keys from the initial state. *)
Theorem legacy_at_most_one_decimal_point (ks : list key)
    (Hkeys : forallb keypad_key ks = true) :
  (count_dots (Legacy.displayValue (legacy_run Legacy.initial ks)) <= 1)%nat.
Proof.
  assert (H : forall ls,
             (count_dots (Legacy.displayValue ls) <= 1)%nat ->
             (count_dots (Legacy.displayValue (legacy_run ls ks)) <= 1)%nat).
  { induction ks as [|k ks IH]; intros ls Hls; [exact Hls|].
    cbn in Hkeys. apply andb_true_iff in Hkeys. destruct Hkeys as [Hk Hks].
    cbn. apply (IH Hks). now apply legacy_press_dots. }
  apply H. cbn. lia.
Qed.

Lemma legacy_at_most_one_decimal_point_witness :
  (count_dots
     (Legacy.displayValue
        (legacy_run Legacy.initial
           [KDigit 1; KDot; KDot; KDigit 5; KOperator "÷"; KDigit 3;
            KEquals; KDot; KDot])) <= 1)%nat.
Proof.
  exact (legacy_at_most_one_decimal_point
           [KDigit 1; KDot; KDot; KDigit 5; KOperator "÷"; KDigit 3;
            KEquals; KDot; KDot] eq_refl).
Defined.

(** ** The buttons *)

Lemma button_command_keypad (c : command) :
  button_command c = true -> keypad_command c = true.
Proof. destruct c; cbn; auto. Qed.

Lemma forallb_button_keypad (cs : list command) :
  forallb button_command cs = true -> forallb keypad_command cs = true.
Proof.
  induction cs as [|c cs IH]; [reflexivity|]. cbn. intros H.
  apply andb_true_iff in H. destruct H as [Hc Hcs].
  now rewrite (button_command_keypad c Hc), (IH Hcs).
Qed.

Lemma pressed_buttons_are_button_commands (cs : list command) :
  incl cs (map snd buttons) -> forallb button_command cs = true.
Proof.
  intros Hincl. apply forallb_forall. intros c Hc.
  assert (Hall : forallb button_command (map snd buttons) = true)
    by (vm_compute; reflexivity).
  rewrite forallb_forall in Hall. apply Hall, Hincl, Hc.
Qed.

(** The 24 buttons have pairwise distinct texts, each digit button passes
    its own text to [inputDigit], and whatever buttons are pressed, in any
    order, the display holds at most one '.' and the stored value is null
    exactly when the operator is. *)
Theorem buttons_keep_the_invariants (cs : list command)
    (Hpressed : incl cs (map snd buttons)) :
  NoDup (map fst buttons)
  /\ (forall (label digit : string),
        In (label, InputDigit digit) buttons ->
        digit = label /\ is_digit_key digit = true)
  /\ (count_dots (display (run initial cs)) <= 1)%nat
  /\ chain_inv (run initial cs).
Proof.
  pose proof (pressed_buttons_are_button_commands cs Hpressed) as Hcs.
  split.
  { cbn [map fst buttons].
    repeat (constructor;
            [intros H; cbn [In] in H;
             repeat (destruct H as [H|H]; [discriminate H|]); exact H|]).
    constructor. }
  split.
  { intros label digit H. cbn [In buttons] in H.
    repeat (destruct H as [H|H];
            [first [discriminate H
                   |injection H as <- <-; split; reflexivity]|]).
    contradiction. }
  split.
  - apply run_dots; [now apply forallb_button_keypad|cbn; lia].
  - apply run_chain_inv; [exact Hcs|exact I].
Qed.

Lemma buttons_keep_the_invariants_witness :
  (count_dots
     (display (run initial [InputDigit "7"; InputDot; InputDot;
                            PerformOperation "÷"; MemoryAdd; InputDot;
                            PerformOperation "="; ClearDisplay])) <= 1)%nat.
Proof.
  refine (proj1 (proj2 (proj2
    (buttons_keep_the_invariants
       [InputDigit "7"; InputDot; InputDot; PerformOperation "÷";
        MemoryAdd; InputDot; PerformOperation "="; ClearDisplay] _)))).
  intros c Hc. cbn [In] in Hc. cbn [map snd buttons In].
  repeat (destruct Hc as [<-|Hc]; [tauto|]). contradiction.
Defined.

(** ** Subtracting from the memory *)

Lemma sub_zero_l (v : number) : sub (of_Z 0) v = unsigned_zero (neg v).
Proof. destruct v as [[|]|s| |s m e]; reflexivity. Qed.

Lemma toString_unsigned_zero (x : number) :
  toString (unsigned_zero x) = toString x.
Proof. destruct x; reflexivity. Qed.

(** From a cleared memory, M- followed by MR shows the negated display
    value: the same text the sign key shows. *)
Theorem memory_subtract_negates (st : state) :
  display (run st [MemoryClear; MemorySubtract; MemoryRecall])
  = display (toggleSign st)
  /\ memory (run st [MemoryClear; MemorySubtract; MemoryRecall])
     = unsigned_zero (neg (parseFloat (display st))).
Proof.
  cbn [run fold_left step]. unfold handleMemoryRecall, toggleSign.
  cbn [display setDisplay setWaitingForOperand memory handleMemorySubtract
       handleMemoryClear setMemory].
  rewrite sub_zero_l, toString_unsigned_zero. split; reflexivity.
Qed.
